(** * Quiz.py: the answer normalizer and the response sanitizer

    A shallow embedding of the two text transformations of
    [MathTutorApp] in [Quiz.py]:

    - [_norm], which brings a typed answer to a comparable form, and
    - [_strip_hidden_thoughts], which cleans the reply of the language model.

    A Python [str] is a sequence of Unicode code points and is modelled as a
    list of [N].  The methods of [str] and the functions of [re] that the two
    functions call are embedded first ([Module Py] and [Module Re]); the two
    functions themselves follow, written call by call as in the source. *)

From Stdlib Require Import List NArith ZArith Bool Arith Lia Ascii String.
From Stdlib Require Import DecimalString.
From Stdlib Require Import Permutation Sorting.Sorted.
Import ListNotations.

Set Implicit Arguments.

(** ** Python strings *)

Module Py.

Local Open Scope N_scope.

(** A code point, and a string. *)
Abbreviation codepoint := N (only parsing).
Abbreviation str := (list N) (only parsing).

(** [py "..."] is the [str] of an ASCII literal. *)
Definition py (s : string) : str :=
  map N_of_ascii (list_ascii_of_string s).

Definition between (lo hi c : codepoint) : bool :=
  (N.leb lo c && N.leb c hi)%bool.

(** *** [str.lower]

    CPython lower-cases code point by code point through the Unicode
    database.  The embedding carries the case pairs of the Basic Latin and
    Latin-1 Supplement blocks (A-Z, and U+00C0-U+00DE without the
    multiplication sign U+00D7), which is the alphabet of the application's
    Spanish texts; a code point above U+00FF is left as it is. *)
Definition isupper (c : codepoint) : bool :=
  (between 65 90 c || between 192 214 c || between 216 222 c)%bool.

Definition lower_cp (c : codepoint) : codepoint :=
  if isupper c then (c + 32)%N else c.

Definition lower (s : str) : str := map lower_cp s.

(** *** White space: [str.isspace], also the class [\s] of [re]

    The complete list of code points for which CPython's
    [Py_UNICODE_ISSPACE] holds. *)
Definition isspace (c : codepoint) : bool :=
  (between 9 13 c || between 28 32 c || N.eqb c 133 || N.eqb c 160
   || N.eqb c 5760 || between 8192 8202 c || between 8232 8233 c
   || N.eqb c 8239 || N.eqb c 8287 || N.eqb c 12288)%bool.

(** *** Stripping: [str.strip()] and [str.strip(chars)] *)
Fixpoint lstrip_by (p : codepoint -> bool) (s : str) : str :=
  match s with
  | c :: rest => if p c then lstrip_by p rest else s
  | [] => []
  end.

Definition rstrip_by (p : codepoint -> bool) (s : str) : str :=
  rev (lstrip_by p (rev s)).

Definition strip_by (p : codepoint -> bool) (s : str) : str :=
  rstrip_by p (lstrip_by p s).

Definition mem (c : codepoint) (chars : str) : bool :=
  existsb (N.eqb c) chars.

(** [s.strip()] *)
Definition strip (s : str) : str := strip_by isspace s.

(** [s.strip(chars)] *)
Definition strip_chars (chars : str) (s : str) : str :=
  strip_by (fun c => mem c chars) s.

(** *** [s.startswith(pre)] and [sub in s] *)
Fixpoint startswith (pre s : str) : bool :=
  match pre, s with
  | [], _ => true
  | _ :: _, [] => false
  | a :: pre', c :: s' => (N.eqb a c && startswith pre' s')%bool
  end.

Fixpoint contains (sub s : str) : bool :=
  (startswith sub s ||
   match s with
   | [] => false
   | _ :: rest => contains sub rest
   end)%bool.

(** *** [s.replace(old, new)]

    Occurrences are found from left to right and do not overlap: after an
    occurrence is replaced, the scan resumes behind it.  [skip] counts the
    code points of the current occurrence that are still to be passed.
    With an empty [old], Python puts [new] before every code point and at
    the end. *)
Fixpoint replace_from (old new : str) (skip : nat) (s : str) : str :=
  match s with
  | [] => []
  | c :: rest =>
      match skip with
      | S n => replace_from old new n rest
      | O =>
          if startswith old s
          then new ++ replace_from old new (List.length old - 1)%nat rest
          else c :: replace_from old new 0%nat rest
      end
  end.

Definition replace (old new s : str) : str :=
  match old with
  | [] => new ++ flat_map (fun c => c :: new) s
  | _ :: _ => replace_from old new 0%nat s
  end.

(** *** [s.split(sep)] for a separator of one code point, as in
    [expr.split("*")]: the fields between the separators, empty ones
    included; never the empty list. *)
Fixpoint split (sep : codepoint) (s : str) : list str :=
  match s with
  | [] => [[]]
  | c :: rest =>
      if N.eqb c sep then [] :: split sep rest
      else match split sep rest with
           | field :: fields => (c :: field) :: fields
           | [] => [[c]]
           end
  end.

(** *** [sep.join(parts)] *)
Fixpoint join (sep : str) (parts : list str) : str :=
  match parts with
  | [] => []
  | [p] => p
  | p :: more => p ++ sep ++ join sep more
  end.

(** *** Comparison of strings: code point by code point, a proper prefix
    first. *)
Fixpoint str_leb (a b : str) : bool :=
  match a, b with
  | [], _ => true
  | _ :: _, [] => false
  | x :: a', y :: b' =>
      if N.ltb x y then true
      else if N.eqb x y then str_leb a' b'
      else false
  end.

(** *** [sorted(strings)]

    The result of [sorted] is the ordered rearrangement of its argument;
    equal strings cannot be told apart, so the sorting algorithm does not
    show.  Insertion sort is used here. *)
Fixpoint insert (x : str) (l : list str) : list str :=
  match l with
  | [] => [x]
  | y :: l' => if str_leb x y then x :: l else y :: insert x l'
  end.

Fixpoint sorted (l : list str) : list str :=
  match l with
  | [] => []
  | x :: l' => insert x (sorted l')
  end.

(** The truth value of a string: non-empty. *)
Definition truthy (s : str) : bool :=
  match s with [] => false | _ :: _ => true end.

End Py.

Import Py.

(** ** The answer normalizer *)

(** [MathTutorApp._norm], lines 111-117 of [Quiz.py]. *)
Definition _norm (txt : str) : str :=
  let expr :=
    replace (py ")(") (py ")*(")
      (strip (replace (py " ") (py "") (lower txt))) in
  if negb (contains (py "*") expr) then
    strip_chars (py "()") expr
  else
    let factors :=
      sorted (map (strip_chars (py "()"))
                  (filter truthy (split 42%N expr))) in
    join (py "*") factors.

(** The comparison of [_check_answer]: [_norm(user) == _norm(correct)]. *)
Definition str_eqb (a b : str) : bool :=
  (str_leb a b && str_leb b a)%bool.

Definition equivalent (user correct : str) : bool :=
  str_eqb (_norm user) (_norm correct).

(** ** Regular expressions: the part of [re] that the sanitizer uses *)

Module Re.

Local Open Scope N_scope.

(** A pattern.  Repetition is over one code point of a class, which is all
    the patterns of [Quiz.py] need ([.*], [.*?], [\s*], [#+], [[0-9]+],
    [[\s\S]*?]); each pattern has at most one capturing group. *)
Inductive regex : Type :=
| Eps
| Chr (cls : codepoint -> bool)
| Bol
| Seq (r1 r2 : regex)
| Alt (r1 r2 : regex)
| Star (greedy : bool) (cls : codepoint -> bool)
| Group (r : regex).

(** *** Classes *)

(** [.] under [re.S], and [[\s\S]]. *)
Definition any (c : codepoint) : bool := true.
Definition space_or_not (c : codepoint) : bool :=
  (isspace c || negb (isspace c))%bool.

(** [.] without [re.S]: anything but a line feed. *)
Definition dot (c : codepoint) : bool := negb (N.eqb c 10).

(** [[0-9]] *)
Definition digit (c : codepoint) : bool := between 48 57 c.

(** [\w]: the code points that are alphanumeric for Python, and the
    underscore; as [lower], carried for Basic Latin and Latin-1. *)
Definition word (c : codepoint) : bool :=
  (between 48 57 c || between 65 90 c || N.eqb c 95 || between 97 122 c
   || N.eqb c 170 || between 178 179 c || N.eqb c 181
   || between 185 186 c || between 188 190 c
   || between 192 214 c || between 216 246 c || between 248 255 c)%bool.

(** A literal code point, and the same under [re.I].  Under [re.I] a
    letter of the pattern matches both of its cases; [i], [k] and [s]
    also match their non-ASCII equivalents: U+0130 and U+0131 (dotted
    capital and dotless small i), U+212A (Kelvin sign) and U+017F
    (long s). *)
Definition exactly (p c : codepoint) : bool := N.eqb c p.

Definition ignorecase (p c : codepoint) : bool :=
  (N.eqb (lower_cp c) (lower_cp p)
   || (N.eqb p 105 && (N.eqb c 304 || N.eqb c 305))
   || (N.eqb p 107 && N.eqb c 8490)
   || (N.eqb p 115 && N.eqb c 383))%bool.

(** A literal string of the pattern. *)
Fixpoint lit (s : str) : regex :=
  match s with
  | [] => Eps
  | c :: rest => Seq (Chr (exactly c)) (lit rest)
  end.

Fixpoint lit_i (s : str) : regex :=
  match s with
  | [] => Eps
  | c :: rest => Seq (Chr (ignorecase c)) (lit_i rest)
  end.

(** [cls+] *)
Definition plus (cls : codepoint -> bool) : regex :=
  Seq (Chr cls) (Star true cls).

(** *** Matching

    A backtracking matcher in continuation-passing style, with the
    priorities of [re]: the first alternative first, a greedy repetition
    the longest run first, a lazy one the shortest first.  The state is
    the content of group 1 (if the group has taken part), the code point
    before the position ([None] at the start of the text) and the rest of
    the text. *)
Definition outcome : Type := (option str * str)%type.
Definition cont : Type :=
  option str -> option codepoint -> str -> option outcome.

(** [^] under [(?m)]: at the start of the text and behind a line feed. *)
Definition at_line_start (prev : option codepoint) : bool :=
  match prev with
  | None => true
  | Some c => N.eqb c 10
  end.

Fixpoint star_greedy (cls : codepoint -> bool)
    (k : option codepoint -> str -> option outcome)
    (prev : option codepoint) (s : str) : option outcome :=
  match s with
  | c :: rest =>
      if cls c then
        match star_greedy cls k (Some c) rest with
        | Some o => Some o
        | None => k prev s
        end
      else k prev s
  | [] => k prev s
  end.

Fixpoint star_lazy (cls : codepoint -> bool)
    (k : option codepoint -> str -> option outcome)
    (prev : option codepoint) (s : str) : option outcome :=
  match k prev s with
  | Some o => Some o
  | None =>
      match s with
      | c :: rest => if cls c then star_lazy cls k (Some c) rest else None
      | [] => None
      end
  end.

Fixpoint exec (r : regex) (k : cont)
    (g : option str) (prev : option codepoint) (s : str) : option outcome :=
  match r with
  | Eps => k g prev s
  | Chr cls =>
      match s with
      | c :: rest => if cls c then k g (Some c) rest else None
      | [] => None
      end
  | Bol => if at_line_start prev then k g prev s else None
  | Seq r1 r2 => exec r1 (exec r2 k) g prev s
  | Alt r1 r2 =>
      match exec r1 k g prev s with
      | Some o => Some o
      | None => exec r2 k g prev s
      end
  | Star true cls => star_greedy cls (k g) prev s
  | Star false cls => star_lazy cls (k g) prev s
  | Group r1 =>
      exec r1
        (fun _ prev' s' =>
           k (Some (firstn (List.length s - List.length s') s)) prev' s')
        g prev s
  end.

Definition accept : cont := fun g _ s => Some (g, s).

(** [pattern.match] at a position: group 1 and the text behind the
    match. *)
Definition match_at (r : regex) (prev : option codepoint) (s : str)
    : option outcome :=
  exec r accept None prev s.

(** *** Scanning: the non-overlapping matches from left to right

    The text is cut into the code points that no match covers and the
    matches, each with its group 1.  [skip] counts the code points of the
    current match that are still to be passed.  No pattern of [Quiz.py]
    matches the empty string (lemma [patterns_consume] below); for an
    empty match the scanner records the match and copies the code
    point. *)
Inductive piece : Type :=
| Text (c : codepoint)
| Match (g : option str).

Fixpoint scan_from (r : regex) (prev : option codepoint) (skip : nat)
    (s : str) : list piece :=
  match s with
  | [] =>
      match skip with
      | O =>
          match match_at r prev [] with
          | Some (g, _) => [Match g]
          | None => []
          end
      | S _ => []
      end
  | c :: rest =>
      match skip with
      | S n => scan_from r (Some c) n rest
      | O =>
          match match_at r prev s with
          | Some (g, s') =>
              match (List.length s - List.length s')%nat with
              | O => Match g :: Text c :: scan_from r (Some c) 0 rest
              | S n => Match g :: scan_from r (Some c) n rest
              end
          | None => Text c :: scan_from r (Some c) 0 rest
          end
      end
  end.

Definition scan (r : regex) (s : str) : list piece :=
  scan_from r None 0 s.

(** *** [re.sub] with a template

    The templates of the source are the empty string and [\1]. *)
Inductive titem : Type :=
| TChr (c : codepoint)
| TGroup1.

Definition template : Type := list titem.

(** A group that has not taken part expands to the empty string. *)
Definition expand (t : template) (g : option str) : str :=
  flat_map (fun i =>
              match i with
              | TChr c => [c]
              | TGroup1 => match g with Some x => x | None => [] end
              end) t.

Definition sub (r : regex) (t : template) (s : str) : str :=
  flat_map (fun p =>
              match p with
              | Text c => [c]
              | Match g => expand t g
              end) (scan r s).

(** *** [re.sub] with a function

    The function receives the match; here it sees group 1, [None] when
    the group has not taken part.  [None] as its result stands for an
    exception, which [re.sub] lets through. *)
Fixpoint sub_pieces (f : option str -> option str) (ps : list piece)
    : option str :=
  match ps with
  | [] => Some []
  | Text c :: more => option_map (cons c) (sub_pieces f more)
  | Match g :: more =>
      match f g, sub_pieces f more with
      | Some x, Some y => Some (x ++ y)
      | _, _ => None
      end
  end.

Definition sub_fn (r : regex) (f : option str -> option str) (s : str)
    : option str :=
  sub_pieces f (scan r s).

End Re.

(** ** The response sanitizer *)

(** The patterns of [_strip_hidden_thoughts], in the order of the source. *)

(** [r"<think>.*?</think>"] with [re.I | re.S] *)
Definition re_think : Re.regex :=
  Re.Seq (Re.lit_i (py "<think>"))
    (Re.Seq (Re.Star false Re.any) (Re.lit_i (py "</think>"))).

(** [r"(?m)^\s*(thought|razonamiento|assistant reasoning).*"] with [re.I] *)
Definition re_thought : Re.regex :=
  Re.Seq Re.Bol
    (Re.Seq (Re.Star true isspace)
       (Re.Seq
          (Re.Group
             (Re.Alt (Re.lit_i (py "thought"))
                (Re.Alt (Re.lit_i (py "razonamiento"))
                   (Re.lit_i (py "assistant reasoning")))))
          (Re.Star true Re.dot))).

(** [r"(?m)^#+\s*"] *)
Definition re_header : Re.regex :=
  Re.Seq Re.Bol (Re.Seq (Re.plus (Re.exactly 35%N)) (Re.Star true isspace)).

(** [r"\\\((.*?)\\\)"] with [re.S]: backslash, parenthesis *)
Definition latex_inline : Re.regex :=
  Re.Seq (Re.lit [92; 40]%N)
    (Re.Seq (Re.Group (Re.Star false Re.any)) (Re.lit [92; 41]%N)).

(** [r"\\\[([\s\S]*?)\\\]"] with [re.S]: backslash, square bracket *)
Definition latex_block : Re.regex :=
  Re.Seq (Re.lit [92; 91]%N)
    (Re.Seq (Re.Group (Re.Star false Re.space_or_not)) (Re.lit [92; 93]%N)).

(** [r"\$\$([\s\S]*?)\$\$"] with [re.S] *)
Definition re_dollars : Re.regex :=
  Re.Seq (Re.lit (py "$$"))
    (Re.Seq (Re.Group (Re.Star false Re.space_or_not)) (Re.lit (py "$$"))).

(** [r"\((\w)\)"] *)
Definition re_trivial_paren : Re.regex :=
  Re.Seq (Re.lit (py "("))
    (Re.Seq (Re.Group (Re.Chr Re.word)) (Re.lit (py ")"))).

(** [r"\^([0-9]+)"] *)
Definition re_exponent : Re.regex :=
  Re.Seq (Re.lit (py "^")) (Re.Group (Re.plus Re.digit)).

(** The templates [""] and [r"\1"]. *)
Definition nothing : Re.template := [].
Definition group1 : Re.template := [Re.TGroup1].

(** [str.maketrans(from, to)] and [ch.translate(table)]: a code point of
    [from] becomes the one at the same place in [to], any other stays. *)
Definition maketrans (from to : str) : list (codepoint * codepoint) :=
  combine from to.

Fixpoint translate_cp (table : list (codepoint * codepoint)) (c : codepoint)
    : codepoint :=
  match table with
  | [] => c
  | (a, b) :: more => if N.eqb c a then b else translate_cp more c
  end.

Definition translate (table : list (codepoint * codepoint)) (s : str) : str :=
  map (translate_cp table) s.

(** The superscript digits: U+2070, U+00B9, U+00B2, U+00B3,
    U+2074 to U+2079. *)
Definition superscripts : str :=
  [8304; 185; 178; 179; 8308; 8309; 8310; 8311; 8312; 8313]%N.

Definition super_map : list (codepoint * codepoint) :=
  maketrans (py "0123456789") superscripts.

(** The function given to [re.sub] for the exponents:
    [lambda m: ''.join(ch.translate(super_map) for ch in m.group(1))].
    Iterating over [m.group(1)] raises when the group is [None]. *)
Definition to_superscript (g : option str) : option str :=
  match g with
  | Some digits => Some (flat_map (fun ch => translate super_map [ch]) digits)
  | None => None
  end.

(** [MathTutorApp._strip_hidden_thoughts], lines 119-148 of [Quiz.py];
    [None] stands for an exception. *)
Definition _strip_hidden_thoughts (text : str) : option str :=
  let cleaned := Re.sub re_think nothing text in
  let cleaned := Re.sub re_thought nothing cleaned in
  let cleaned := Re.sub re_header nothing cleaned in
  let cleaned := Re.sub latex_inline group1 cleaned in
  let cleaned := Re.sub latex_block group1 cleaned in
  let cleaned := Re.sub latex_inline group1 cleaned in
  let cleaned := Re.sub latex_block group1 cleaned in
  let cleaned := Re.sub re_dollars group1 cleaned in
  let cleaned := Re.sub re_trivial_paren group1 cleaned in
  match Re.sub_fn re_exponent to_superscript cleaned with
  | Some cleaned => Some (strip (replace (py "#") (py "") cleaned))
  | None => None
  end.


(** ** The application around the two functions

    The rest of [Quiz.py]: the three loaders of the JSON files, the
    construction of the window, the callbacks of its buttons and the
    request to the language model.  The files, the random choice of the
    questions, the server and the user are the environment of the program
    and are given to the functions that meet them; the widgets of Tk are
    records of what the callbacks read and set (fonts, colours of the
    buttons and the layout are left out). *)

(** *** Values read from JSON

    What [json.loads] gives: [None], a [bool], an [int] or a [float], a
    [str], a [list] or a [dict].  A [dict] is the list of its items in the
    order of insertion, its keys distinct strings.  A finite [float] is
    [mantissa * 2 ^ exponent]. *)
Inductive number : Type :=
| Int (z : Z)
| Float (mantissa exponent : Z)
| Infinity (negative : bool)
| NaN.

#[warnings="-register-all"] Inductive json : Type :=
| JNull
| JBool (b : bool)
| JNumber (n : number)
| JStr (s : str)
| JList (items : list json)
| JDict (items : list (str * json)).

(** *** Exceptions, and results that may be one

    [External] is an exception of the environment: a file that cannot be
    read or parsed, a request that fails. *)
Inductive exn : Type :=
| KeyError (key : json)
| IndexError
| TypeError
| AttributeError
| ValueError
| External (what : str).

Inductive result (A : Type) : Type :=
| Ok (a : A)
| Raise (e : exn).

Arguments Ok {A} a.
Arguments Raise {A} e.

Definition bind (A B : Type) (r : result A) (k : A -> result B) : result B :=
  match r with
  | Ok a => k a
  | Raise e => Raise e
  end.

Notation "x <- r ;; k" := (bind r (fun x => k))
  (at level 61, r at next level, right associativity).

(** A comprehension whose element expression may raise: the elements are
    evaluated in order, the first exception ends it. *)
Fixpoint traverse (A B : Type) (f : A -> result B) (l : list A)
    : result (list B) :=
  match l with
  | [] => Ok []
  | x :: more => y <- f x ;; ys <- traverse f more ;; Ok (y :: ys)
  end.

(** *** The operations of Python on these values *)

(** The value of a key in the items of a [dict]. *)
Fixpoint lookup (key : str) (d : list (str * json)) : option json :=
  match d with
  | [] => None
  | (k, v) :: more => if str_eqb k key then Some v else lookup key more
  end.

(** [v[key]] for a string [key]: only a [dict] takes one. *)
Definition getitem (v : json) (key : str) : result json :=
  match v with
  | JDict d =>
      match lookup key d with
      | Some x => Ok x
      | None => Raise (KeyError (JStr key))
      end
  | _ => Raise TypeError
  end.

(** [v[0]]: the first item of a list, the first code point of a string;
    a [dict] read from JSON has no key [0]. *)
Definition getitem0 (v : json) : result json :=
  match v with
  | JList (x :: _) => Ok x
  | JList [] => Raise IndexError
  | JStr (c :: _) => Ok (JStr [c])
  | JStr [] => Raise IndexError
  | JDict _ => Raise (KeyError (JNumber (Int 0)))
  | _ => Raise TypeError
  end.

(** [v.get(key, default)]: a method of [dict] only. *)
Definition get (v : json) (key : str) (default : json) : result json :=
  match v with
  | JDict d =>
      Ok (match lookup key d with
          | Some x => x
          | None => default
          end)
  | _ => Raise AttributeError
  end.

(** [d.setdefault(key, default)] on the items of a [dict]. *)
Definition setdefault (key : str) (default : json) (d : list (str * json))
    : list (str * json) :=
  match lookup key d with
  | Some _ => d
  | None => d ++ [(key, default)]
  end.

(** [for q in v]: the items of a list, the code points of a string, the
    keys of a [dict]. *)
Definition iterate (v : json) : result (list json) :=
  match v with
  | JList l => Ok l
  | JStr s => Ok (map (fun c => JStr [c]) s)
  | JDict d => Ok (map (fun kv => JStr (fst kv)) d)
  | _ => Raise TypeError
  end.

(** The receiver of a method of [str] ([strip], [rstrip], [lower],
    [format]): any other value has no such attribute. *)
Definition as_str (v : json) : result str :=
  match v with
  | JStr s => Ok s
  | _ => Raise AttributeError
  end.

(** [sub in v] for a string [sub]: a substring of a string, an item of a
    list, a key of a [dict]. *)
Definition contained (sub : str) (v : json) : result bool :=
  match v with
  | JStr s => Ok (contains sub s)
  | JList l =>
      Ok (existsb (fun x => match x with
                            | JStr s => str_eqb s sub
                            | _ => false
                            end) l)
  | JDict d => Ok (existsb (fun kv => str_eqb (fst kv) sub) d)
  | _ => Raise TypeError
  end.

(** [s.rstrip()] *)
Definition rstrip (s : str) : str := rstrip_by isspace s.

(** [l[i]] for an index from 0, and the list with its item [i] replaced. *)
Definition index (A : Type) (l : list A) (i : nat) : result A :=
  match nth_error l i with
  | Some x => Ok x
  | None => Raise IndexError
  end.

Fixpoint update (A : Type) (i : nat) (x : A) (l : list A) {struct l}
    : list A :=
  match l, i with
  | [], _ => []
  | _ :: more, O => x :: more
  | y :: more, S j => y :: update j x more
  end.

(** A number in an f-string: its decimal digits. *)
Definition decimal (n : nat) : str :=
  py (NilZero.string_of_uint (Nat.to_uint n)).

(** *** The data classes and their loaders

    The classes do not check their fields: a field holds whatever the
    file gave.  The argument of a loader is the value that [json.loads]
    returned for its file. *)
Record LLMConfig : Type := {
  url : json;
  model : json;
  temperature : json;
  max_tokens : json;
  timeout : json
}.

Record PromptTemplates : Type := {
  system : json;
  all_correct : json;
  some_wrong : json;
  all_wrong : json
}.

Record Question : Type := {
  statement : json;
  answer : json
}.

(** The parameters of the constructor of [LLMConfig]. *)
Definition LLMConfig_fields : list str :=
  [py "url"; py "model"; py "temperature"; py "max_tokens"; py "timeout"].

Definition or_default (field : option json) (default : json) : json :=
  match field with
  | Some x => x
  | None => default
  end.

(** [LLMConfig.from_file], lines 31-35.  The constructor, called with the
    items of [data] as keyword arguments, raises [TypeError] for a key that
    is no parameter and for a missing [url] or [model]. *)
Definition LLMConfig_from_file (data : json) : result LLMConfig :=
  match data with
  | JDict d =>
      let d := setdefault (py "timeout") (JNumber (Int 90)) d in
      if forallb (fun kv => existsb (str_eqb (fst kv)) LLMConfig_fields) d
      then
        match lookup (py "url") d, lookup (py "model") d with
        | Some u, Some m =>
            Ok {| url := u;
                  model := m;
                  temperature :=
                    or_default (lookup (py "temperature") d)
                      (JNumber (Float 1 (-1)));
                  max_tokens :=
                    or_default (lookup (py "max_tokens") d)
                      (JNumber (Int 500));
                  timeout :=
                    or_default (lookup (py "timeout") d) (JNumber (Int 90)) |}
        | _, _ => Raise TypeError
        end
      else Raise TypeError
  | _ => Raise AttributeError
  end.

(** [PromptTemplates.from_file], lines 44-52. *)
Definition PromptTemplates_from_file (data : json) : result PromptTemplates :=
  s <- getitem data (py "system_prompt") ;;
  a <- (u <- getitem data (py "user_prompts") ;; getitem u (py "all_correct")) ;;
  w <- (u <- getitem data (py "user_prompts") ;; getitem u (py "some_wrong")) ;;
  x <- (u <- getitem data (py "user_prompts") ;; getitem u (py "all_wrong")) ;;
  Ok {| system := s; all_correct := a; some_wrong := w; all_wrong := x |}.

(** [load_questions], lines 61-70. *)
Definition load_questions (data : json) : result (json * list Question) :=
  titulo <- get data (py "titulo") (JStr (py "")) ;;
  listed <- getitem data (py "preguntas") ;;
  items <- iterate listed ;;
  preguntas <-
    traverse (fun q =>
                p <- getitem q (py "pregunta") ;;
                r <- getitem q (py "respuesta") ;;
                Ok {| statement := p; answer := r |}) items ;;
  Ok (titulo, preguntas).

(** *** The environment

    What the program asks of Python and of the server: [str(v)] for a
    value other than a string (in an f-string), [str(exc)] for an
    exception, [template.format(n_errors=..., details=...)],
    [random.sample], and the answer to a request. *)
Record world : Type := {
  str_of : json -> str;
  describe : exn -> str;
  format : str -> nat -> str -> result str;
  random_sample : list Question -> Z -> result (list Question)
}.

(** Lines 180-182: [requests.post(url, json=payload, timeout=timeout)],
    [raise_for_status()] and [r.json()]: the JSON of the response, or the
    exception that one of the three raises. *)
Definition server : Type := json -> json -> json -> result json.

(** A value in an f-string. *)
Definition text_of (w : world) (v : json) : str :=
  match v with
  | JStr s => s
  | _ => str_of w v
  end.

(** *** The window

    An [Entry] holds its text and its state, a [Label] its text and its
    colour ([None] until it is set); [send_index] is the index that each
    [Enviar] button gives to [_check_answer]. *)
Inductive widget_state : Type :=
| normal
| disabled.

Record Entry : Type := {
  entry_text : str;
  entry_state : widget_state
}.

Record Label : Type := {
  label_text : str;
  label_fg : option str
}.

Record MathTutorApp : Type := {
  questions : list Question;
  cfg : LLMConfig;
  prompts : PromptTemplates;
  title_text : str;
  entries : list Entry;
  labels : list Label;
  root_title : str;
  header : option str;
  captions : list str;
  send_index : list nat;
  tutor_btn : widget_state;
  feedback : str;
  feedback_state : widget_state
}.

(** [enumerate(l, start)] *)
Definition enumerate (A : Type) (start : nat) (l : list A) : list (nat * A) :=
  combine (seq start (List.length l)) l.

(** [_build_ui], lines 88-108, on the fields that [__init__] has set. *)
Definition _build_ui (w : world) (qs : list Question) (c : LLMConfig)
    (p : PromptTemplates) (title : str) : MathTutorApp :=
  {| questions := qs;
     cfg := c;
     prompts := p;
     title_text := title;
     entries :=
       map (fun _ => {| entry_text := []; entry_state := normal |})
         (enumerate 1 qs);
     labels :=
       map (fun _ => {| label_text := []; label_fg := None |})
         (enumerate 1 qs);
     root_title := py "Tutor de Algebra";
     header := if truthy title then Some title else None;
     captions :=
       map (fun iq =>
              decimal (fst iq) ++ py ". " ++ text_of w (statement (snd iq)))
         (enumerate 1 qs);
     send_index := map (fun iq => fst iq - 1) (enumerate 1 qs);
     tutor_btn := disabled;
     feedback := [];
     feedback_state := disabled |}.

(** [MathTutorApp.__init__], lines 74-85. *)
Definition MathTutorApp_init (w : world) (qs : list Question)
    (llm_cfg : LLMConfig) (p : PromptTemplates) (title : json) (n : Z)
    : result MathTutorApp :=
  shown <- (if (n <=? Z.of_nat (List.length qs))%Z
            then random_sample w qs n
            else Ok qs) ;;
  title <- as_str title ;;
  Ok (_build_ui w shown llm_cfg p (strip title)).

(** *** The callbacks *)

(** [self._norm(v)]: [txt.lower()] needs a string. *)
Definition _norm_of (v : json) : result str :=
  txt <- as_str v ;; Ok (_norm txt).

Definition correcto : str := py "Correcto".
Definition incorrecto : str := py "Incorrecto".

(** [_check_answer], lines 150-157. *)
Definition _check_answer (app : MathTutorApp) (idx : nat)
    : result MathTutorApp :=
  ent <- index (entries app) idx ;;
  let user := entry_text ent in
  q <- index (questions app) idx ;;
  let correct := answer q in
  given <- _norm_of (JStr user) ;;
  wanted <- _norm_of correct ;;
  let ok := str_eqb given wanted in
  _ <- index (labels app) idx ;;
  Ok {| questions := questions app;
        cfg := cfg app;
        prompts := prompts app;
        title_text := title_text app;
        entries :=
          if ok
          then update idx {| entry_text := user; entry_state := disabled |}
                 (entries app)
          else entries app;
        labels :=
          update idx
            {| label_text := if ok then correcto else incorrecto;
               label_fg := Some (if ok then py "green" else py "red") |}
            (labels app);
        root_title := root_title app;
        header := header app;
        captions := captions app;
        send_index := send_index app;
        tutor_btn := normal;
        feedback := feedback app;
        feedback_state := feedback_state app |}.

(** [_gather_wrong_answers], lines 159-160: the comprehension over
    [enumerate(self.entries)], from index [i] on. *)
Fixpoint gather (qs : list Question) (i : nat) (ents : list Entry)
    : result (list (nat * str)) :=
  match ents with
  | [] => Ok []
  | ent :: more =>
      given <- _norm_of (JStr (entry_text ent)) ;;
      q <- index qs i ;;
      wanted <- _norm_of (answer q) ;;
      rest <- gather qs (S i) more ;;
      Ok (if negb (str_eqb given wanted)
          then (i, entry_text ent) :: rest
          else rest)
  end.

Definition _gather_wrong_answers (app : MathTutorApp)
    : result (list (nat * str)) :=
  gather (questions app) 0 (entries app).

(** The f-string of lines 167 and 170 for one wrong answer. *)
Definition detail (w : world) (app : MathTutorApp) (wrong : nat * str)
    : result str :=
  q <- index (questions app) (fst wrong) ;;
  q' <- index (questions app) (fst wrong) ;;
  Ok (py "Pregunta: " ++ text_of w (statement q) ++ [10%N]
      ++ py "Respuesta del estudiante: " ++ snd wrong ++ [10%N]
      ++ py "Respuesta correcta: " ++ text_of w (answer q')).

(** [_show_feedback], lines 187-191. *)
Definition _show_feedback (app : MathTutorApp) (text : str) : MathTutorApp :=
  {| questions := questions app;
     cfg := cfg app;
     prompts := prompts app;
     title_text := title_text app;
     entries := entries app;
     labels := labels app;
     root_title := root_title app;
     header := header app;
     captions := captions app;
     send_index := send_index app;
     tutor_btn := tutor_btn app;
     feedback := text;
     feedback_state := disabled |}.

(** The prompt as it is sent: lines 176-177 of [_ask_llm]. *)
Definition no_think : str := py "/no_think".

Definition with_no_think (user_prompt : json) : result json :=
  found <- contained no_think user_prompt ;;
  if negb found
  then s <- as_str user_prompt ;; Ok (JStr (rstrip s ++ py " /no_think"))
  else Ok user_prompt.

(** The payload of line 178. *)
Definition payload_of (app : MathTutorApp) (user_prompt : json) : json :=
  JDict
    [(py "model", model (cfg app));
     (py "messages",
      JList
        [JDict [(py "role", JStr (py "system"));
                (py "content", system (prompts app))];
         JDict [(py "role", JStr (py "user"));
                (py "content", user_prompt)]]);
     (py "temperature", temperature (cfg app));
     (py "max_tokens", max_tokens (cfg app))].

(** Lines 180-183: the request and the way to the text of the reply. *)
Definition reply_of (post : server) (app : MathTutorApp) (user_prompt : json)
    : result str :=
  r <- post (url (cfg app)) (payload_of app user_prompt) (timeout (cfg app)) ;;
  choices <- getitem r (py "choices") ;;
  choice <- getitem0 choices ;;
  message <- getitem choice (py "message") ;;
  content <- getitem message (py "content") ;;
  raw <- as_str content ;;
  match _strip_hidden_thoughts (strip raw) with
  | Some cleaned => Ok cleaned
  | None => Raise TypeError
  end.

(** [_ask_llm], lines 175-185. *)
Definition _ask_llm (w : world) (post : server) (app : MathTutorApp)
    (user_prompt : json) : result str :=
  user_prompt <- with_no_think user_prompt ;;
  match reply_of post app user_prompt with
  | Ok reply => Ok reply
  | Raise exc => Ok (py "Error al consultar LLM: " ++ describe w exc)
  end.

(** [_tutor_feedback], lines 162-173. *)
Definition _tutor_feedback (w : world) (post : server) (app : MathTutorApp)
    : result MathTutorApp :=
  wrong_answers <- _gather_wrong_answers app ;;
  prompt <-
    (if negb (match wrong_answers with [] => false | _ :: _ => true end)
     then Ok (all_correct (prompts app))
     else if Nat.eqb (List.length wrong_answers)
               (List.length (questions app))
     then
       blocks <- traverse (detail w app) wrong_answers ;;
       let detalles := join [10%N; 10%N] blocks in
       template <- as_str (all_wrong (prompts app)) ;;
       prompt <- format w template (List.length wrong_answers) detalles ;;
       Ok (JStr prompt)
     else
       blocks <- traverse (detail w app) wrong_answers ;;
       let detalles := join [10%N; 10%N] blocks in
       template <- as_str (some_wrong (prompts app)) ;;
       prompt <- format w template (List.length wrong_answers) detalles ;;
       Ok (JStr prompt)) ;;
  reply <- _ask_llm w post app prompt ;;
  Ok (_show_feedback app reply).

(** *** The event loop

    [run] hands the window to the user, who types into an entry that is
    not disabled, presses the [Enviar] button of a row, or presses the
    tutor button when it is not disabled.  An exception in a callback is
    reported by Tk and leaves the window as it is. *)
Inductive event : Type :=
| Typed (row : nat) (text : str)
| Send (row : nat)
| Tutor (post : server).

Definition set_text (app : MathTutorApp) (row : nat) (text : str)
    : MathTutorApp :=
  match nth_error (entries app) row with
  | Some {| entry_text := _; entry_state := normal |} =>
      {| questions := questions app;
         cfg := cfg app;
         prompts := prompts app;
         title_text := title_text app;
         entries :=
           update row {| entry_text := text; entry_state := normal |}
             (entries app);
         labels := labels app;
         root_title := root_title app;
         header := header app;
         captions := captions app;
         send_index := send_index app;
         tutor_btn := tutor_btn app;
         feedback := feedback app;
         feedback_state := feedback_state app |}
  | _ => app
  end.

Definition handle (w : world) (app : MathTutorApp) (ev : event)
    : MathTutorApp :=
  match ev with
  | Typed row text => set_text app row text
  | Send row =>
      match nth_error (send_index app) row with
      | Some idx =>
          match _check_answer app idx with
          | Ok app' => app'
          | Raise _ => app
          end
      | None => app
      end
  | Tutor post =>
      match tutor_btn app with
      | normal =>
          match _tutor_feedback w post app with
          | Ok app' => app'
          | Raise _ => app
          end
      | disabled => app
      end
  end.

Definition run (w : world) (app : MathTutorApp) (events : list event)
    : MathTutorApp :=
  fold_left (handle w) events app.

(** [main], lines 198-205, on the outcome of reading and parsing each of
    the three files: the window as [run] receives it, or the line that is
    printed. *)
Definition main (w : world) (cfg_file prompts_file questions_file : result json)
    : MathTutorApp + str :=
  match
    (llm_cfg <- (data <- cfg_file ;; LLMConfig_from_file data) ;;
     p <- (data <- prompts_file ;; PromptTemplates_from_file data) ;;
     loaded <- (data <- questions_file ;; load_questions data) ;;
     MathTutorApp_init w (snd loaded) llm_cfg p (fst loaded) 2)
  with
  | Ok app => inl app
  | Raise exc =>
      inr (py "Error al iniciar la aplicaci" ++ [243%N] ++ py "n: "
           ++ describe w exc)
  end.

(** ** Vocabulary of the statements *)

(** [s.endswith(suf)] *)
Definition endswith (suf s : str) : bool := startswith (rev suf) (rev s).

(** The local [expr] of [_norm]: the text in lower case, without spaces,
    stripped, and with [)(] rewritten to [)*(]. *)
Definition expr_of (txt : str) : str :=
  replace (py ")(") (py ")*(")
    (strip (replace (py " ") (py "") (lower txt))).

(** A parenthesis, the set of [strip("()")]. *)
Definition is_paren (c : codepoint) : bool := mem c (py "()").

(** The first (the last) code point of a string is not in a class. *)
Definition first_ok (p : codepoint -> bool) (s : str) : bool :=
  match s with
  | c :: _ => negb (p c)
  | [] => true
  end.

Definition last_ok (p : codepoint -> bool) (s : str) : bool :=
  first_ok p (rev s).



(** *** Vocabulary of the proofs *)

Local Open Scope N_scope.

(** The rewriting of [)(] as a recursion of its own. *)
Fixpoint rewrite_pp (s : str) : str :=
  match s with
  | [] => []
  | a :: t =>
      match t with
      | b :: rest =>
          if (N.eqb 41 a && N.eqb 40 b)%bool
          then 41%N :: 42%N :: 40%N :: rewrite_pp rest
          else a :: rewrite_pp t
      | [] => [a]
      end
  end.

(** The order of strings as a relation. *)
Definition str_le (a b : str) : Prop := str_leb a b = true.

(** The factors of [expr]: its non-empty fields, stripped and sorted.
    Both branches of [_norm] join them (lemma [norm_factors]). *)
Definition factors_of (expr : str) : list str :=
  sorted (map (strip_chars (py "()")) (filter truthy (split 42%N expr))).

(** The stripped non-empty fields of [expr], before they are sorted. *)
Definition pieces (expr : str) : list str :=
  map (strip_chars (py "()")) (filter truthy (split 42%N expr)).


(** The pairs of adjacent code points of a text. *)
Fixpoint pairs (s : str) : list (N * N) :=
  match s with
  | [] => []
  | a :: t =>
      match t with
      | [] => []
      | b :: _ => (a, b) :: pairs t
      end
  end.

(** The code point before the position behind [l]. *)
Definition last_of (prev : option N) (l : str) : option N :=
  fold_left (fun _ c => Some c) l prev.

(** A sequence of classes, one code point each: the shape of [lit] and
    [lit_i]. *)
Fixpoint chars (cs : list (N -> bool)) : Re.regex :=
  match cs with
  | [] => Re.Eps
  | f :: cs' => Re.Seq (Re.Chr f) (chars cs')
  end.

(** [s] starts with code points that the classes accept, one by one. *)
Fixpoint fits_prefix (cs : list (N -> bool)) (s : str) : bool :=
  match cs, s with
  | [], _ => true
  | _ :: _, [] => false
  | f :: cs', c :: s' => (f c && fits_prefix cs' s')%bool
  end.

(** [o] is accepted by the classes, one by one, to its end. *)
Fixpoint fits (cs : list (N -> bool)) (o : str) : bool :=
  match cs, o with
  | [], [] => true
  | f :: cs', c :: o' => (f c && fits cs' o')%bool
  | _, _ => false
  end.

(** Somewhere in [s] starts a string that the classes accept. *)
Fixpoint occurs (cs : list (N -> bool)) (s : str) : bool :=
  (fits_prefix cs s ||
   match s with
   | [] => false
   | _ :: t => occurs cs t
   end)%bool.

(** A tag in any case, and its occurrence in a text. *)
Definition tag_ci (tag o : str) : bool := fits (map Re.ignorecase tag) o.

Definition contains_ci (tag s : str) : bool :=
  occurs (map Re.ignorecase tag) s.

(** No match succeeds at any position of [s]. *)
Fixpoint never (r : Re.regex) (s : str) : Prop :=
  (forall p, Re.match_at r p s = None)
  /\ match s with
     | [] => True
     | _ :: t => never r t
     end.

(** What [Re.sub] writes for a piece of the scan. *)
Definition render (t : Re.template) (p : Re.piece) : str :=
  match p with
  | Re.Text c => [c]
  | Re.Match g => Re.expand t g
  end.

(** The classes fit nowhere inside [pre], [rest] following. *)
Fixpoint unfit (cs : list (N -> bool)) (pre rest : str) : Prop :=
  match pre with
  | [] => True
  | _ :: pre' => fits_prefix cs (pre ++ rest) = false /\ unfit cs pre' rest
  end.

(** What the first class accepts, no later class accepts: an occurrence
    cannot start inside another one. *)
Definition head_apart (cs : list (N -> bool)) : Prop :=
  match cs with
  | [] => True
  | f :: tl => forall x g, f x = true -> In g tl -> g x = false
  end.

(** The first class accepts [x]. *)
Definition head_accepts (cs : list (N -> bool)) (x : N) : Prop :=
  match cs with
  | [] => False
  | f :: _ => f x = true
  end.

(** The continuation fails at every position inside [body]. *)
Fixpoint misses (k : option N -> str -> option Re.outcome)
    (body rest : str) : Prop :=
  match body with
  | [] => True
  | _ :: body' =>
      (forall p, k p (body ++ rest) = None) /\ misses k body' rest
  end.

(** A rule for delimited text: an opening delimiter, anything (lazily),
    a closing delimiter; [grouped] says whether the inside is group 1. *)
Definition inner (cls : N -> bool) (grouped : bool) : Re.regex :=
  if grouped then Re.Group (Re.Star false cls) else Re.Star false cls.

Definition delimited (O C : list (N -> bool)) (cls : N -> bool)
    (grouped : bool) : Re.regex :=
  Re.Seq (chars O) (Re.Seq (inner cls grouped) (chars C)).

Definition capture (grouped : bool) (body : str) : option str :=
  if grouped then Some body else None.

(** The continuation of the lazy repetition: the closing delimiter. *)
Definition closing (C : list (N -> bool)) (grouped : bool) (s1 : str)
    : option N -> str -> option Re.outcome :=
  fun _ s' =>
    if fits_prefix C s'
    then Some (capture grouped
                 (firstn (List.length s1 - List.length s') s1),
               skipn (List.length C) s')
    else None.

(** The two tags of [re_think] as classes. *)
Definition think_open : list (N -> bool) := map Re.ignorecase (py "<think>").

Definition think_close : list (N -> bool) :=
  map Re.ignorecase (py "</think>").

(** A caret with a digit behind it: where [re_exponent] can match. *)
Definition exponent_start : list (N -> bool) := [Re.exactly 94; Re.digit].

(** A caret with a digit behind it stands somewhere in [s]. *)
Definition has_exponent (s : str) : bool := occurs exponent_start s.

(** The continuation behind the digits of [re_exponent]: the group is
    closed and the match accepted. *)
Definition exponent_done (digits : str)
    : option N -> str -> option Re.outcome :=
  fun p' s' =>
    Re.accept
      (Some (firstn (List.length digits - List.length s') digits)) p' s'.











(** The least number of code points that a match of the pattern takes. *)
Fixpoint min_length (r : Re.regex) : nat :=
  match r with
  | Re.Eps => 0
  | Re.Chr _ => 1
  | Re.Bol => 0
  | Re.Seq r1 r2 => min_length r1 + min_length r2
  | Re.Alt r1 r2 => Nat.min (min_length r1) (min_length r2)
  | Re.Star _ _ => 0
  | Re.Group r1 => min_length r1
  end.

(** The patterns of [_strip_hidden_thoughts]. *)
Definition patterns : list Re.regex :=
  [re_think; re_thought; re_header; latex_inline; latex_block; re_dollars;
   re_trivial_paren; re_exponent].

(** ** Facts on the string operations *)

Section Strip.

Variable p : codepoint -> bool.

Lemma lstrip_by_split (s : str) :
  exists l, s = l ++ lstrip_by p s /\ forallb p l = true.
Proof.
  induction s as [|c s IH]; simpl.
  - exists []. split; reflexivity.
  - destruct (p c) eqn:E.
    + destruct IH as [l [H1 H2]]. exists (c :: l). simpl.
      rewrite E, H2. split; [f_equal; exact H1 | reflexivity].
    + exists []. split; reflexivity.
Qed.

Lemma lstrip_by_first_ok (s : str) : first_ok p (lstrip_by p s) = true.
Proof.
  induction s as [|c s IH]; simpl; [reflexivity|].
  destruct (p c) eqn:E; [exact IH | simpl; rewrite E; reflexivity].
Qed.

Lemma lstrip_by_fixed (s : str) : first_ok p s = true -> lstrip_by p s = s.
Proof.
  destruct s as [|c s]; simpl; [reflexivity|].
  destruct (p c); [discriminate | reflexivity].
Qed.

Lemma rstrip_by_split (s : str) :
  exists r, s = rstrip_by p s ++ r /\ forallb p r = true.
Proof.
  unfold rstrip_by. destruct (lstrip_by_split (rev s)) as [l [H1 H2]].
  exists (rev l). split.
  - rewrite <- rev_app_distr, <- H1, rev_involutive. reflexivity.
  - rewrite forallb_forall in *. intros x Hx. apply H2, in_rev, Hx.
Qed.

Lemma rstrip_by_last_ok (s : str) : last_ok p (rstrip_by p s) = true.
Proof.
  unfold last_ok, rstrip_by. rewrite rev_involutive.
  apply lstrip_by_first_ok.
Qed.

Lemma rstrip_by_fixed (s : str) : last_ok p s = true -> rstrip_by p s = s.
Proof.
  unfold last_ok, rstrip_by. intros H.
  rewrite lstrip_by_fixed by exact H. apply rev_involutive.
Qed.

Lemma first_ok_prefix (s r : str) :
  first_ok p (s ++ r) = true -> first_ok p s = true.
Proof. destruct s; simpl; auto. Qed.

Lemma rstrip_by_first_ok (s : str) :
  first_ok p s = true -> first_ok p (rstrip_by p s) = true.
Proof.
  intros H. destruct (rstrip_by_split s) as [r [H1 _]].
  rewrite H1 in H. exact (first_ok_prefix _ _ H).
Qed.

Lemma strip_by_first_ok (s : str) : first_ok p (strip_by p s) = true.
Proof. apply rstrip_by_first_ok, lstrip_by_first_ok. Qed.

Lemma strip_by_last_ok (s : str) : last_ok p (strip_by p s) = true.
Proof. apply rstrip_by_last_ok. Qed.

Lemma strip_by_fixed (s : str) :
  first_ok p s = true -> last_ok p s = true -> strip_by p s = s.
Proof.
  intros H1 H2. unfold strip_by.
  rewrite lstrip_by_fixed by exact H1. apply rstrip_by_fixed, H2.
Qed.

Lemma strip_by_idem (s : str) : strip_by p (strip_by p s) = strip_by p s.
Proof.
  apply strip_by_fixed; [apply strip_by_first_ok | apply strip_by_last_ok].
Qed.

(** What is stripped is a run of the class at each end. *)
Lemma strip_by_split (s : str) :
  exists l r, s = l ++ strip_by p s ++ r
              /\ forallb p l = true /\ forallb p r = true.
Proof.
  destruct (lstrip_by_split s) as [l [H1 H2]].
  destruct (rstrip_by_split (lstrip_by p s)) as [r [H3 H4]].
  exists l, r. unfold strip_by. rewrite <- H3. auto.
Qed.

End Strip.

(** *** [replace] of one code point, and of [)(] by [)*(] *)

Lemma replace_single (a : codepoint) (new s : str) :
  replace [a] new s = flat_map (fun c => if N.eqb a c then new else [c]) s.
Proof.
  unfold replace. induction s as [|c s IH]; simpl; [reflexivity|].
  destruct (N.eqb a c); simpl; rewrite IH; reflexivity.
Qed.

Lemma remove_spaces (s : str) :
  replace (py " ") (py "") s = filter (fun c => negb (N.eqb 32 c)) s.
Proof.
  change (py " ") with [32%N]. change (py "") with (@nil codepoint).
  rewrite replace_single. induction s as [|c s IH]; [reflexivity|].
  cbn [flat_map filter]. rewrite IH.
  destruct (N.eqb 32 c); reflexivity.
Qed.

Lemma replace_pp (s : str) : replace (py ")(") (py ")*(") s = rewrite_pp s.
Proof.
  change (py ")(") with [41%N; 40%N]. change (py ")*(") with [41%N; 42%N; 40%N].
  unfold replace.
  enough (H : forall n (t : str), (List.length t <= n)%nat ->
            replace_from [41%N; 40%N] [41%N; 42%N; 40%N] 0 t = rewrite_pp t)
    by (apply (H (List.length s)); lia).
  induction n as [|n IH]; intros t Hn.
  - destruct t; [reflexivity | simpl in Hn; lia].
  - destruct t as [|a [|b rest]]; [reflexivity | | ].
    + cbn [replace_from startswith rewrite_pp].
      rewrite andb_false_r. reflexivity.
    + simpl in Hn.
      change (replace_from [41%N; 40%N] [41%N; 42%N; 40%N] 0 (a :: b :: rest))
        with (if (N.eqb 41 a && (N.eqb 40 b && true))%bool
              then [41%N; 42%N; 40%N]
                     ++ replace_from [41%N; 40%N] [41%N; 42%N; 40%N] 0 rest
              else a :: replace_from [41%N; 40%N] [41%N; 42%N; 40%N] 0
                          (b :: rest)).
      rewrite andb_true_r.
      change (rewrite_pp (a :: b :: rest))
        with (if (N.eqb 41 a && N.eqb 40 b)%bool
              then 41%N :: 42%N :: 40%N :: rewrite_pp rest
              else a :: rewrite_pp (b :: rest)).
      rewrite (IH rest) by lia. rewrite (IH (b :: rest)) by (simpl; lia).
      reflexivity.
Qed.

(** Induction along [rewrite_pp]. *)
Lemma rewrite_pp_ind (P : str -> Prop) :
  P [] ->
  (forall a, P [a]) ->
  (forall rest, P rest -> P (41%N :: 40%N :: rest)) ->
  (forall a b rest, (N.eqb 41 a && N.eqb 40 b)%bool = false ->
                    P (b :: rest) -> P (a :: b :: rest)) ->
  forall s, P s.
Proof.
  intros H0 H1 H2 H3 s.
  enough (H : forall n (t : str), (List.length t <= n)%nat -> P t)
    by (apply (H (List.length s)); lia).
  induction n as [|n IH]; intros t Hn.
  - destruct t; [exact H0 | simpl in Hn; lia].
  - destruct t as [|a [|b rest]]; [exact H0 | apply H1 | ].
    simpl in Hn. destruct (N.eqb 41 a && N.eqb 40 b)%bool eqn:E.
    + apply andb_true_iff in E. destruct E as [Ea Eb].
      apply N.eqb_eq in Ea, Eb. subst a b. apply H2, IH. lia.
    + apply H3; [exact E | apply IH; simpl; lia].
Qed.

Lemma rewrite_pp_match (rest : str) :
  rewrite_pp (41%N :: 40%N :: rest) = 41%N :: 42%N :: 40%N :: rewrite_pp rest.
Proof. reflexivity. Qed.

Lemma rewrite_pp_step (a b : codepoint) (rest : str) :
  (N.eqb 41 a && N.eqb 40 b)%bool = false ->
  rewrite_pp (a :: b :: rest) = a :: rewrite_pp (b :: rest).
Proof.
  intros E.
  change (rewrite_pp (a :: b :: rest))
    with (if (N.eqb 41 a && N.eqb 40 b)%bool
          then 41%N :: 42%N :: 40%N :: rewrite_pp rest
          else a :: rewrite_pp (b :: rest)).
  rewrite E. reflexivity.
Qed.

(** *** [sub in s] for one code point, and [split] without a separator *)

Lemma contains_single (c : codepoint) (s : str) :
  contains [c] s = existsb (N.eqb c) s.
Proof.
  induction s as [|x s IH]; simpl; [reflexivity|].
  rewrite IH, andb_true_r. reflexivity.
Qed.

Lemma split_nonempty (sep : codepoint) (s : str) : split sep s <> [].
Proof.
  induction s as [|c s IH]; simpl; [discriminate|].
  destruct (N.eqb c sep); [discriminate|].
  destruct (split sep s); [contradiction | discriminate].
Qed.

Lemma split_no_sep (sep : codepoint) (s : str) :
  existsb (N.eqb sep) s = false -> split sep s = [s].
Proof.
  induction s as [|c s IH]; simpl; [reflexivity|].
  intros H. apply orb_false_iff in H. destruct H as [H1 H2].
  rewrite N.eqb_sym, H1, (IH H2). reflexivity.
Qed.

Lemma split_app_sep (sep : codepoint) (a b : str) :
  split sep (a ++ sep :: b) = split sep a ++ split sep b.
Proof.
  induction a as [|c a IH]; simpl.
  - rewrite N.eqb_refl. reflexivity.
  - destruct (N.eqb c sep); [rewrite IH; reflexivity|].
    rewrite IH. destruct (split sep a) eqn:E; [|reflexivity].
    exfalso. exact (split_nonempty _ _ E).
Qed.

(** *** The order of strings and [sorted] *)

Lemma str_leb_refl (a : str) : str_leb a a = true.
Proof.
  induction a as [|x a IH]; simpl; [reflexivity|].
  rewrite N.ltb_irrefl, N.eqb_refl. exact IH.
Qed.

Lemma str_leb_total (a b : str) : str_leb a b = true \/ str_leb b a = true.
Proof.
  revert b. induction a as [|x a IH]; intros [|y b]; simpl; auto.
  destruct (N.ltb_spec x y), (N.ltb_spec y x),
    (N.eqb_spec x y), (N.eqb_spec y x); auto; try lia.
Qed.

Lemma str_leb_antisym (a b : str) :
  str_leb a b = true -> str_leb b a = true -> a = b.
Proof.
  revert b. induction a as [|x a IH]; intros [|y b]; simpl;
    try discriminate; auto.
  destruct (N.ltb_spec x y), (N.ltb_spec y x),
    (N.eqb_spec x y), (N.eqb_spec y x); try discriminate; try lia.
  intros H1 H2. subst y. f_equal. apply IH; assumption.
Qed.

Lemma str_leb_trans (a b c : str) :
  str_leb a b = true -> str_leb b c = true -> str_leb a c = true.
Proof.
  revert b c. induction a as [|x a IH]; intros [|y b] [|z c]; simpl;
    try discriminate; auto.
  destruct (N.ltb_spec x y), (N.ltb_spec y z), (N.ltb_spec x z),
    (N.eqb_spec x y), (N.eqb_spec y z), (N.eqb_spec x z);
    try discriminate; try lia; auto.
  apply IH.
Qed.

Lemma insert_perm (x : str) (l : list str) : Permutation (insert x l) (x :: l).
Proof.
  induction l as [|y l IH]; simpl; [apply Permutation_refl|].
  destruct (str_leb x y); [apply Permutation_refl|].
  eapply perm_trans; [apply perm_skip, IH | apply perm_swap].
Qed.

Lemma sorted_perm (l : list str) : Permutation (sorted l) l.
Proof.
  induction l as [|x l IH]; simpl; [apply perm_nil|].
  eapply perm_trans; [apply insert_perm | apply perm_skip, IH].
Qed.

Lemma insert_sorted (x : str) (l : list str) :
  StronglySorted str_le l -> StronglySorted str_le (insert x l).
Proof.
  induction 1 as [|y l Hs IH Hy]; simpl.
  - constructor; constructor.
  - destruct (str_leb x y) eqn:E.
    + constructor; [constructor; assumption|].
      constructor; [exact E|].
      rewrite Forall_forall in *. intros z Hz.
      exact (str_leb_trans _ _ _ E (Hy z Hz)).
    + constructor; [exact IH|].
      rewrite Forall_forall in *. intros z Hz.
      apply (Permutation_in _ (insert_perm x l)) in Hz.
      destruct Hz as [<- | Hz]; [|exact (Hy z Hz)].
      destruct (str_leb_total x y) as [H | H]; [congruence | exact H].
Qed.

Lemma sorted_sorted (l : list str) : StronglySorted str_le (sorted l).
Proof.
  induction l as [|x l IH]; simpl; [constructor | apply insert_sorted, IH].
Qed.

(** An ordered rearrangement is unique. *)
Lemma sorted_unique (l l' : list str) :
  StronglySorted str_le l -> StronglySorted str_le l' ->
  Permutation l l' -> l = l'.
Proof.
  intros Hl. revert l'. induction Hl as [|a l Hs IH Ha]; intros l' Hl' Hp.
  - apply Permutation_nil in Hp. congruence.
  - destruct Hl' as [|b l' Hs' Hb].
    + apply Permutation_sym, Permutation_nil in Hp. discriminate.
    + assert (a = b) as <-.
      { rewrite Forall_forall in Ha, Hb.
        assert (Hin1 : In a (b :: l'))
          by (apply (Permutation_in _ Hp); left; reflexivity).
        assert (Hin2 : In b (a :: l))
          by (apply (Permutation_in _ (Permutation_sym Hp)); left;
              reflexivity).
        destruct Hin1 as [E | Hin1]; [congruence|].
        destruct Hin2 as [E | Hin2]; [congruence|].
        apply str_leb_antisym; [apply Ha, Hin2 | apply Hb, Hin1]. }
      f_equal. apply IH; [exact Hs'|].
      exact (Permutation_cons_inv Hp).
Qed.

Lemma sorted_of_perm (l l' : list str) :
  Permutation l l' -> sorted l = sorted l'.
Proof.
  intros Hp. apply sorted_unique; try apply sorted_sorted.
  eapply perm_trans; [apply sorted_perm|].
  eapply perm_trans; [exact Hp | apply Permutation_sym, sorted_perm].
Qed.

Lemma sorted_idem (l : list str) : sorted (sorted l) = sorted l.
Proof. apply sorted_of_perm, sorted_perm. Qed.

Lemma sorted_Forall (Q : str -> Prop) (l : list str) :
  Forall Q l -> Forall Q (sorted l).
Proof.
  rewrite !Forall_forall. intros H x Hx.
  apply H, (Permutation_in _ (sorted_perm l)), Hx.
Qed.

(** *** What the operations keep: a property of all code points *)

Section Keep.

Variable P : codepoint -> Prop.

Lemma strip_by_Forall (p : codepoint -> bool) (s : str) :
  Forall P s -> Forall P (strip_by p s).
Proof.
  destruct (strip_by_split p s) as [l [r [E _]]]. intros H.
  rewrite E in H. apply Forall_app in H. destruct H as [_ H].
  apply Forall_app in H. tauto.
Qed.

Lemma filter_Forall (A : Type) (Q : A -> Prop) (f : A -> bool) (l : list A) :
  Forall Q l -> Forall Q (filter f l).
Proof.
  rewrite !Forall_forall. intros H x Hx. apply filter_In in Hx. apply H, Hx.
Qed.

Lemma rewrite_pp_Forall (s : str) :
  P 42%N -> Forall P s -> Forall P (rewrite_pp s).
Proof.
  intros H42. induction s as [| a | rest IH | a b rest E IH]
    using rewrite_pp_ind; intros H.
  - constructor.
  - exact H.
  - rewrite rewrite_pp_match. inversion H as [|? ? Ha H']. subst.
    inversion H' as [|? ? Hb H'']. subst.
    repeat constructor; auto.
  - rewrite (rewrite_pp_step _ _ _ E). inversion H. subst.
    constructor; auto.
Qed.

Lemma split_Forall (sep : codepoint) (s : str) :
  Forall P s -> Forall (Forall P) (split sep s).
Proof.
  induction s as [|c s IH]; simpl; intros H.
  - repeat constructor.
  - inversion H as [|? ? Hc Hs]. subst. specialize (IH Hs).
    destruct (N.eqb c sep); [constructor; [constructor | exact IH]|].
    destruct (split sep s) as [|f fs]; [repeat constructor; exact Hc|].
    inversion IH. subst. constructor; [constructor|]; assumption.
Qed.

Lemma join_Forall (sep : str) (l : list str) :
  Forall P sep -> Forall (Forall P) l -> Forall P (join sep l).
Proof.
  intros Hsep. induction l as [|p [|q more] IH]; intros H.
  - constructor.
  - inversion H. assumption.
  - inversion H as [|? ? Hp Hq]. subst.
    change (join sep (p :: q :: more)) with (p ++ sep ++ join sep (q :: more)).
    apply Forall_app. split; [exact Hp|].
    apply Forall_app. split; [exact Hsep | exact (IH Hq)].
Qed.

End Keep.

(** *** [_norm] as one expression

    Both branches of [_norm] give the sorted stripped factors, joined. *)

Lemma norm_factors (txt : str) :
  _norm txt = join (py "*") (factors_of (expr_of txt)).
Proof.
  unfold _norm. cbv zeta. fold (expr_of txt). fold (factors_of (expr_of txt)).
  destruct (contains (py "*") (expr_of txt)) eqn:E; [reflexivity|].
  cbn [negb]. unfold factors_of.
  change (py "*") with [42%N] in E. rewrite contains_single in E.
  rewrite (split_no_sep _ _ E).
  destruct (expr_of txt) as [|c e]; reflexivity.
Qed.


(** Every code point of the result comes from the lower-cased answer
    without its spaces, or is the asterisk. *)
Lemma norm_Forall (P : codepoint -> Prop) (txt : str) :
  P 42%N ->
  Forall P (filter (fun c => negb (N.eqb 32 c)) (lower txt)) ->
  Forall P (_norm txt).
Proof.
  intros H42 H. rewrite norm_factors. apply join_Forall.
  - repeat constructor. exact H42.
  - unfold factors_of. apply sorted_Forall.
    apply Forall_forall. intros f Hf. apply in_map_iff in Hf.
    destruct Hf as [g [<- Hg]]. apply strip_by_Forall.
    apply filter_In in Hg. destruct Hg as [Hg _].
    assert (Hs : Forall (Forall P) (split 42%N (expr_of txt))).
    { apply split_Forall. unfold expr_of. rewrite replace_pp.
      apply rewrite_pp_Forall; [exact H42|].
      apply strip_by_Forall. rewrite remove_spaces. exact H. }
    rewrite Forall_forall in Hs. exact (Hs g Hg).
Qed.

(** *** The ends of a joined string *)

Lemma first_ok_app (p : codepoint -> bool) (a b : str) :
  first_ok p (a ++ b) = match a with [] => first_ok p b | _ => first_ok p a end.
Proof. destruct a; reflexivity. Qed.

Lemma last_ok_app (p : codepoint -> bool) (a b : str) :
  last_ok p (a ++ b) = match b with [] => last_ok p a | _ => last_ok p b end.
Proof.
  unfold last_ok. rewrite rev_app_distr, first_ok_app.
  destruct b as [|c b]; [reflexivity|].
  destruct (rev (c :: b)) eqn:E; [|reflexivity].
  apply (f_equal (@List.length _)) in E. rewrite length_rev in E. discriminate.
Qed.

Lemma join_first_ok (p : codepoint -> bool) (sep : str) (l : list str) :
  sep <> [] -> first_ok p sep = true ->
  Forall (fun f => first_ok p f = true) l -> first_ok p (join sep l) = true.
Proof.
  intros Hne Hsep. induction l as [|f [|g more] IH]; intros H.
  - reflexivity.
  - inversion H. assumption.
  - inversion H as [|? ? Hf Hg]. subst.
    change (join sep (f :: g :: more)) with (f ++ sep ++ join sep (g :: more)).
    rewrite first_ok_app. destruct f; [|exact Hf].
    rewrite first_ok_app. destruct sep; [contradiction | exact Hsep].
Qed.

Lemma join_last_ok (p : codepoint -> bool) (sep : str) (l : list str) :
  sep <> [] -> last_ok p sep = true ->
  Forall (fun f => last_ok p f = true) l -> last_ok p (join sep l) = true.
Proof.
  intros Hne Hsep. induction l as [|f [|g more] IH]; intros H.
  - reflexivity.
  - inversion H. assumption.
  - inversion H as [|? ? Hf Hg]. subst. specialize (IH Hg).
    change (join sep (f :: g :: more)) with (f ++ sep ++ join sep (g :: more)).
    rewrite last_ok_app.
    destruct (sep ++ join sep (g :: more)) eqn:E.
    + destruct sep; [contradiction | discriminate].
    + rewrite <- E, last_ok_app.
      destruct (join sep (g :: more)); [exact Hsep | exact IH].
Qed.

Lemma factors_stripped (expr : str) :
  Forall (fun f => first_ok is_paren f = true /\ last_ok is_paren f = true)
    (factors_of expr).
Proof.
  unfold factors_of. apply sorted_Forall. apply Forall_forall.
  intros f Hf. apply in_map_iff in Hf. destruct Hf as [g [<- _]].
  split; [apply strip_by_first_ok | apply strip_by_last_ok].
Qed.

Lemma norm_first_ok (txt : str) : first_ok is_paren (_norm txt) = true.
Proof.
  rewrite norm_factors. apply join_first_ok; [discriminate | reflexivity |].
  eapply Forall_impl; [|apply factors_stripped]. simpl. tauto.
Qed.

Lemma norm_last_ok (txt : str) : last_ok is_paren (_norm txt) = true.
Proof.
  rewrite norm_factors. apply join_last_ok; [discriminate | reflexivity |].
  eapply Forall_impl; [|apply factors_stripped]. simpl. tauto.
Qed.

Lemma first_ok_paren (s : str) :
  first_ok is_paren s = true ->
  startswith (py "(") s = false /\ startswith (py ")") s = false.
Proof.
  destruct s as [|c s]; [intros _; split; reflexivity|].
  cbn [first_ok]. unfold is_paren, mem.
  change (py "()") with [40%N; 41%N]. change (py "(") with [40%N].
  change (py ")") with [41%N]. cbn [existsb startswith].
  rewrite (N.eqb_sym 40 c), (N.eqb_sym 41 c).
  destruct (N.eqb c 40), (N.eqb c 41); simpl; intros H;
    try discriminate; split; reflexivity.
Qed.

(** ** The claims on the normalizer *)

(** C9. For every answer, the result of [_norm] neither starts nor ends
    with a parenthesis. *)
Theorem norm_no_outer_parenthesis (txt : str) :
  startswith (py "(") (_norm txt) = false
  /\ startswith (py ")") (_norm txt) = false
  /\ endswith (py "(") (_norm txt) = false
  /\ endswith (py ")") (_norm txt) = false.
Proof.
  destruct (first_ok_paren _ (norm_first_ok txt)) as [H1 H2].
  destruct (first_ok_paren _ (norm_last_ok txt)) as [H3 H4].
  repeat split; assumption.
Qed.



(** *** Case and white space of code points *)

Lemma isupper_true (c : codepoint) :
  isupper c = true
  <-> (65 <= c <= 90 \/ 192 <= c <= 214 \/ 216 <= c <= 222)%N.
Proof.
  unfold isupper, between.
  rewrite !orb_true_iff, !andb_true_iff, !N.leb_le. tauto.
Qed.


Lemma isupper_lower_cp (c : codepoint) : isupper (lower_cp c) = false.
Proof.
  destruct (isupper c) eqn:E; unfold lower_cp; rewrite E; [|exact E].
  apply not_true_iff_false. rewrite isupper_true in *. lia.
Qed.

Lemma lower_cp_idem (c : codepoint) : lower_cp (lower_cp c) = lower_cp c.
Proof.
  unfold lower_cp at 1. rewrite isupper_lower_cp. reflexivity.
Qed.


(** *** White space at the ends, for [strip] *)







(** *** A product of parenthesized factors *)



















(** *** Adjacent code points: where [)(] can stand *)

Lemma pairs_cons (a b : N) (t : str) :
  pairs (a :: b :: t) = (a, b) :: pairs (b :: t).
Proof. reflexivity. Qed.

Lemma pairs_app_l (a b : str) : incl (pairs a) (pairs (a ++ b)).
Proof.
  induction a as [|x [|y a] IH].
  - intros q [].
  - intros q [].
  - cbn [app] in *. rewrite !pairs_cons.
    intros q [<- | Hq]; [left; reflexivity | right; apply IH, Hq].
Qed.

Lemma pairs_app_r (a b : str) : incl (pairs b) (pairs (a ++ b)).
Proof.
  induction a as [|x a IH]; [apply incl_refl|].
  cbn [app]. destruct (a ++ b) as [|y t] eqn:E.
  - destruct a; [|discriminate]. cbn [app] in E. subst b. intros q [].
  - rewrite pairs_cons. apply incl_tl, IH.
Qed.

Lemma pairs_app_sep (x y c : N) (a t : str) :
  In (x, y) (pairs (a ++ c :: t)) ->
  In (x, y) (pairs a) \/ y = c \/ x = c \/ In (x, y) (pairs t).
Proof.
  induction a as [|u [|v a] IH].
  - cbn [app]. destruct t as [|w t]; [intros []|].
    rewrite pairs_cons. intros [E | H].
    + inversion E. auto.
    + right. right. right. destruct t; [destruct H|].
      rewrite pairs_cons in H. exact H.
  - cbn [app]. rewrite pairs_cons. intros [E | H].
    + inversion E. auto.
    + apply (IH H).
  - cbn [app] in *. rewrite !pairs_cons. intros [E | H].
    + left. left. exact E.
    + destruct (IH H) as [H' | H']; [left; right; exact H' | right; exact H'].
Qed.

Lemma rewrite_pp_head (b : N) (t : str) :
  exists t', rewrite_pp (b :: t) = b :: t'.
Proof.
  destruct t as [|c t]; [exists []; reflexivity|].
  destruct (N.eqb 41 b && N.eqb 40 c)%bool eqn:E.
  - apply andb_true_iff in E. destruct E as [E1 E2].
    apply N.eqb_eq in E1, E2. subst. eexists. apply rewrite_pp_match.
  - eexists. apply (rewrite_pp_step _ _ _ E).
Qed.

(** After the rewriting no [)(] is left. *)
Lemma rewrite_pp_pairs (s : str) : ~ In (41, 40) (pairs (rewrite_pp s)).
Proof.
  induction s as [| a | rest IH | a b rest E IH] using rewrite_pp_ind.
  - intros [].
  - intros [].
  - rewrite rewrite_pp_match. rewrite !pairs_cons.
    intros [H | [H | H]]; try discriminate.
    destruct rest as [|c rest]; [destruct H|].
    destruct (rewrite_pp_head c rest) as [t' Et]. rewrite Et in *.
    rewrite pairs_cons in H. destruct H as [H | H]; [discriminate|].
    apply IH. exact H.
  - rewrite (rewrite_pp_step _ _ _ E).
    destruct (rewrite_pp_head b rest) as [t' Et]. rewrite Et in *.
    rewrite pairs_cons. intros [H | H]; [|exact (IH H)].
    inversion H. subst. discriminate.
Qed.

(** A text without [)(] is not rewritten. *)
Lemma rewrite_pp_fixed (s : str) : ~ In (41, 40) (pairs s) -> rewrite_pp s = s.
Proof.
  induction s as [| a | rest IH | a b rest E IH] using rewrite_pp_ind;
    intros H.
  - reflexivity.
  - reflexivity.
  - exfalso. apply H. left. reflexivity.
  - rewrite (rewrite_pp_step _ _ _ E). f_equal. apply IH.
    intros H'. apply H. right. exact H'.
Qed.

Lemma split_first_prefix (sep : N) (s f : str) (fs : list str) :
  split sep s = f :: fs -> exists t, s = f ++ t.
Proof.
  revert f fs. induction s as [|c s IH]; intros f fs; simpl.
  - intros E. inversion E. exists []. reflexivity.
  - destruct (N.eqb c sep).
    + intros E. inversion E. exists (c :: s). reflexivity.
    + destruct (split sep s) as [|g gs] eqn:Es.
      * intros E. inversion E. exists s. reflexivity.
      * intros E. injection E as Ef Efs. subst f fs.
        destruct (IH g gs eq_refl) as [t Et]. exists t. rewrite Et at 1.
        reflexivity.
Qed.

Lemma split_pairs (sep : N) (s : str) :
  Forall (fun f => incl (pairs f) (pairs s)) (split sep s).
Proof.
  induction s as [|c s IH]; simpl.
  - constructor; [apply incl_refl | constructor].
  - assert (Hs : incl (pairs s) (pairs (c :: s)))
      by apply (pairs_app_r [c] s).
    assert (IH' : Forall (fun f => incl (pairs f) (pairs (c :: s)))
                    (split sep s)).
    { eapply Forall_impl; [|exact IH]. intros f Hf.
      exact (incl_tran Hf Hs). }
    destruct (N.eqb c sep).
    + constructor; [intros q [] | exact IH'].
    + destruct (split sep s) as [|g gs] eqn:Es.
      * constructor; [|constructor]. intros q [].
      * inversion IH' as [|? ? _ Hgs]. subst. constructor; [|exact Hgs].
        destruct (split_first_prefix _ _ Es) as [t Et]. rewrite Et.
        apply (pairs_app_l (c :: g) t).
Qed.

Lemma split_fields (sep : N) (s : str) :
  Forall (Forall (fun c => c <> sep)) (split sep s).
Proof.
  induction s as [|c s IH]; simpl.
  - repeat constructor.
  - destruct (N.eqb_spec c sep) as [E | E].
    + constructor; [constructor | exact IH].
    + destruct (split sep s) as [|g gs].
      * repeat constructor. exact E.
      * inversion IH. subst. constructor; [constructor|]; assumption.
Qed.

(** *** The factors of a result, read again *)

Lemma startswith_app (sub a b : str) :
  startswith sub a = true -> startswith sub (a ++ b) = true.
Proof.
  revert a. induction sub as [|x sub IH]; intros [|y a]; simpl;
    try discriminate; auto.
  intros H. apply andb_true_iff in H. destruct H as [H1 H2].
  rewrite H1, (IH _ H2). reflexivity.
Qed.

Lemma contains_app_l (sub a b : str) :
  contains sub a = true -> contains sub (a ++ b) = true.
Proof.
  induction a as [|x a IH]; simpl.
  - rewrite orb_false_r. intros H. destruct sub; [|discriminate].
    destruct b; reflexivity.
  - intros H. apply orb_true_iff in H. destruct H as [H | H].
    + change (x :: a ++ b) with ((x :: a) ++ b).
      rewrite (startswith_app _ _ b H). reflexivity.
    + rewrite (IH H). apply orb_true_r.
Qed.

Lemma contains_app_r (sub a b : str) :
  contains sub b = true -> contains sub (a ++ b) = true.
Proof.
  intros H. induction a as [|x a IH]; [exact H|].
  cbn [app contains]. rewrite IH. apply orb_true_r.
Qed.

Lemma split_without (sep : N) (f : str) :
  Forall (fun c => c <> sep) f -> split sep f = [f].
Proof.
  intros H. apply split_no_sep. apply not_true_is_false. intros E.
  apply existsb_exists in E. destruct E as [c [Hin Hc]].
  apply N.eqb_eq in Hc. rewrite Forall_forall in H.
  exact (H c Hin (eq_sym Hc)).
Qed.

Lemma split_join (fs : list str) :
  fs <> [] -> Forall (Forall (fun c => c <> 42)) fs ->
  split 42 (join [42] fs) = fs.
Proof.
  induction fs as [|f [|g more] IH]; intros Hne H.
  - contradiction.
  - inversion H. subst. apply split_without. assumption.
  - inversion H as [|? ? Hf Hg]. subst.
    change (join [42] (f :: g :: more)) with (f ++ 42 :: join [42] (g :: more)).
    rewrite split_app_sep, (split_without Hf), IH;
      [reflexivity | discriminate | exact Hg].
Qed.

Lemma join_nonempty_factors (fs : list str) :
  join [42] fs <> [] ->
  startswith [42] (join [42] fs) = false ->
  startswith [42] (rev (join [42] fs)) = false ->
  contains [42; 42] (join [42] fs) = false ->
  Forall (fun f => f <> []) fs.
Proof.
  induction fs as [|f [|g more] IH]; intros Hne Hs He Hc.
  - constructor.
  - constructor; [exact Hne | constructor].
  - change (join [42] (f :: g :: more))
      with (f ++ 42 :: join [42] (g :: more)) in *.
    set (J := join [42] (g :: more)) in *.
    assert (Hf : f <> []).
    { intros ->. cbn [app] in Hs. discriminate. }
    assert (HJ : J <> []).
    { intros E. rewrite E, rev_app_distr in He. discriminate. }
    constructor; [exact Hf|]. apply IH; [exact HJ | | |].
    + destruct J as [|c J'] eqn:EJ; [reflexivity|].
      destruct (N.eqb_spec 42 c) as [<- | Hn].
      * rewrite (contains_app_r [42; 42] f (42 :: 42 :: J')) in Hc;
          [discriminate | reflexivity].
      * cbn [startswith]. apply N.eqb_neq in Hn. rewrite Hn. reflexivity.
    + rewrite rev_app_distr in He. cbn [rev] in He.
      destruct (rev J) as [|c R] eqn:ER.
      * apply (f_equal (@rev N)) in ER. rewrite rev_involutive in ER.
        contradiction.
      * exact He.
    + apply not_true_is_false. intros E.
      assert (H' := contains_app_r [42; 42] (f ++ [42]) J E).
      rewrite <- app_assoc in H'. cbn [app] in H'. congruence.
Qed.

Lemma filter_all (A : Type) (f : A -> bool) (l : list A) :
  Forall (fun x => f x = true) l -> filter f l = l.
Proof.
  induction 1 as [|x l Hx _ IH]; simpl; [reflexivity|].
  rewrite Hx, IH. reflexivity.
Qed.

Lemma map_fixed (A : Type) (g : A -> A) (l : list A) :
  Forall (fun x => g x = x) l -> map g l = l.
Proof.
  induction 1 as [|x l Hx _ IH]; simpl; [reflexivity|].
  rewrite Hx, IH. reflexivity.
Qed.

Lemma strip_by_pairs (p : N -> bool) (s : str) :
  incl (pairs (strip_by p s)) (pairs s).
Proof.
  destruct (strip_by_split p s) as [l [r [E _]]]. rewrite E at 2.
  exact (incl_tran (pairs_app_l _ r) (pairs_app_r l _)).
Qed.

Lemma pieces_facts (e : str) :
  Forall (fun f => Forall (fun c => c <> 42) f
                   /\ incl (pairs f) (pairs e)) (pieces e).
Proof.
  unfold pieces. apply Forall_forall. intros f Hf.
  apply in_map_iff in Hf. destruct Hf as [g [<- Hg]].
  apply filter_In in Hg. destruct Hg as [Hg _].
  pose proof (split_fields 42 e) as H1. pose proof (split_pairs 42 e) as H2.
  rewrite Forall_forall in H1, H2. split.
  - apply strip_by_Forall, H1, Hg.
  - exact (incl_tran (strip_by_pairs _ g) (H2 g Hg)).
Qed.

Lemma factors_facts (e : str) :
  Forall (fun f => Forall (fun c => c <> 42) f
                   /\ incl (pairs f) (pairs e)) (factors_of e).
Proof. apply sorted_Forall, pieces_facts. Qed.

Lemma join_pairs (fs : list str) :
  Forall (fun f => ~ In (41, 40) (pairs f)) fs ->
  ~ In (41, 40) (pairs (join [42] fs)).
Proof.
  induction fs as [|f [|g more] IH]; intros H.
  - intros [].
  - inversion H. assumption.
  - inversion H as [|? ? Hf Hg]. subst.
    change (join [42] (f :: g :: more)) with (f ++ 42 :: join [42] (g :: more)).
    intros Hin. apply pairs_app_sep in Hin.
    destruct Hin as [Hin | [Hin | [Hin | Hin]]]; try discriminate.
    + exact (Hf Hin).
    + exact (IH Hg Hin).
Qed.

Lemma norm_no_pp (s : str) : ~ In (41, 40) (pairs (_norm s)).
Proof.
  rewrite norm_factors. apply join_pairs.
  eapply Forall_impl; [|apply factors_facts]. intros f [_ Hf] Hin.
  apply Hf in Hin. unfold expr_of in Hin. rewrite replace_pp in Hin.
  exact (rewrite_pp_pairs _ Hin).
Qed.

Lemma norm_lower (s : str) : lower (_norm s) = _norm s.
Proof.
  unfold lower. apply map_fixed. apply norm_Forall; [reflexivity|].
  apply filter_Forall. apply Forall_forall. intros c Hc.
  apply in_map_iff in Hc. destruct Hc as [d [<- _]]. apply lower_cp_idem.
Qed.

Lemma norm_unspaced (s : str) :
  filter (fun c => negb (N.eqb 32 c)) (_norm s) = _norm s.
Proof.
  apply filter_all. apply norm_Forall; [reflexivity|].
  apply Forall_forall. intros c Hc. apply filter_In in Hc. tauto.
Qed.

(** The result of [_norm], given again, is its own [expr] when it has no
    white space at its ends. *)
Lemma expr_of_norm (s : str) :
  first_ok isspace (_norm s) = true -> last_ok isspace (_norm s) = true ->
  expr_of (_norm s) = _norm s.
Proof.
  intros Hf Hl. unfold expr_of.
  rewrite remove_spaces, norm_lower, norm_unspaced.
  unfold strip. rewrite (strip_by_fixed _ _ Hf Hl), replace_pp.
  apply rewrite_pp_fixed, norm_no_pp.
Qed.

(** C1, the claim as the specification words it, fails: of the two pieces
    of [(a)(] the second is not empty when the empty fields are dropped,
    and is empty once its parenthesis is stripped; the result [*a] has an
    empty factor, which a second application drops.  And a tab that a
    stripped parenthesis lays bare at an end is kept the first time and
    stripped the second time. *)
Lemma norm_not_idempotent :
  _norm (py "(a)(") = py "*a"
  /\ _norm (_norm (py "(a)(")) = py "a"
  /\ _norm (_norm [40; 9; 97; 41]) <> _norm [40; 9; 97; 41].
Proof. repeat split; try reflexivity. discriminate. Qed.

(** C1, amended. [_norm] gives its own result back whenever that result
    has no white space at its two ends and no empty factor, that is, does
    not start or end with [*] and does not hold [**]. *)
Theorem norm_idempotent_on_proper_results (s : str) :
  first_ok isspace (_norm s) = true ->
  last_ok isspace (_norm s) = true ->
  startswith (py "*") (_norm s) = false ->
  endswith (py "*") (_norm s) = false ->
  contains (py "**") (_norm s) = false ->
  _norm (_norm s) = _norm s.
Proof.
  intros Hf Hl Hs He Hc.
  destruct (_norm s) as [|c r] eqn:Er; [reflexivity|]. rewrite <- Er in *.
  rewrite (norm_factors (_norm s)), (expr_of_norm _ Hf Hl).
  unfold factors_of at 1.
  set (fs := factors_of (expr_of s)).
  assert (Ejoin : _norm s = join [42] fs) by apply norm_factors.
  change (py "*") with [42] in *. change (py "**") with [42; 42] in Hc.
  assert (Hne : join [42] fs <> []) by (rewrite <- Ejoin, Er; discriminate).
  assert (Hfs : fs <> []) by (intros E; apply Hne; rewrite E; reflexivity).
  pose proof (factors_facts (expr_of s)) as Hfacts. fold fs in Hfacts.
  assert (Esplit : split 42 (_norm s) = fs).
  { rewrite Ejoin. apply split_join; [exact Hfs|].
    eapply Forall_impl; [|exact Hfacts]. simpl. tauto. }
  rewrite Esplit. unfold endswith in He. cbn [rev app] in He.
  rewrite Ejoin in Hs, He, Hc.
  pose proof (join_nonempty_factors fs Hne Hs He Hc) as Hfull.
  rewrite filter_all;
    [|eapply Forall_impl; [|exact Hfull]; intros [|x f] H;
      [contradiction | reflexivity]].
  rewrite map_fixed.
  - unfold fs at 1. unfold factors_of. rewrite sorted_idem.
    symmetry. apply norm_factors.
  - eapply Forall_impl; [|apply (factors_stripped (expr_of s))].
    intros f [H1 H2]. apply strip_by_fixed; assumption.
Qed.

Lemma norm_idempotent_on_proper_results_witness :
  _norm (_norm (py "(x+2)(X - 3)")) = _norm (py "(x+2)(X - 3)").
Proof.
  apply norm_idempotent_on_proper_results; reflexivity.
Defined.

(** ** Facts on the matcher and the scanner *)


Lemma lit_chars (s : str) : Re.lit s = chars (map Re.exactly s).
Proof. induction s as [|c s IH]; simpl; [|rewrite IH]; reflexivity. Qed.


Lemma last_of_app (prev : option N) (a b : str) :
  last_of prev (a ++ b) = last_of (last_of prev a) b.
Proof. apply fold_left_app. Qed.

Lemma exec_chars (cs : list (N -> bool)) (k : Re.cont) (g : option str)
    (prev : option N) (s : str) :
  Re.exec (chars cs) k g prev s
  = if fits_prefix cs s
    then k g (last_of prev (firstn (List.length cs) s))
           (skipn (List.length cs) s)
    else None.
Proof.
  revert prev s. induction cs as [|f cs IH]; intros prev s.
  - reflexivity.
  - destruct s as [|c s]; [reflexivity|].
    cbn [chars Re.exec fits_prefix]. destruct (f c); [|reflexivity].
    rewrite IH. reflexivity.
Qed.

Lemma fits_prefix_app (cs : list (N -> bool)) (o rest : str) :
  fits cs o = true -> fits_prefix cs (o ++ rest) = true.
Proof.
  revert o. induction cs as [|f cs IH]; intros [|c o]; simpl;
    try discriminate; auto.
  intros H. apply andb_true_iff in H. destruct H as [H1 H2].
  rewrite H1, (IH _ H2). reflexivity.
Qed.

Lemma fits_length (cs : list (N -> bool)) (o : str) :
  fits cs o = true -> List.length o = List.length cs.
Proof.
  revert o. induction cs as [|f cs IH]; intros [|c o]; simpl;
    try discriminate; auto.
  intros H. apply andb_true_iff in H. destruct H as [_ H2].
  rewrite (IH _ H2). reflexivity.
Qed.

(** *** The scanner *)

Lemma scan_skip (r : Re.regex) (l rest : str) (prev : option N) (n : nat) :
  List.length l = n ->
  Re.scan_from r prev n (l ++ rest) = Re.scan_from r (last_of prev l) 0 rest.
Proof.
  revert prev n. induction l as [|c l IH]; intros prev n E.
  - subst n. reflexivity.
  - destruct n as [|n]; [discriminate|]. injection E as E.
    cbn [app Re.scan_from]. apply (IH (Some c) n E).
Qed.

Lemma scan_text (r : Re.regex) (prev : option N) (c : N) (s : str) :
  Re.match_at r prev (c :: s) = None ->
  Re.scan_from r prev 0 (c :: s)
  = Re.Text c :: Re.scan_from r (Some c) 0 s.
Proof. intros H. cbn [Re.scan_from]. rewrite H. reflexivity. Qed.

Lemma scan_hit (r : Re.regex) (prev : option N) (g : option str)
    (c : N) (m rest : str) :
  Re.match_at r prev ((c :: m) ++ rest) = Some (g, rest) ->
  Re.scan_from r prev 0 ((c :: m) ++ rest)
  = Re.Match g :: Re.scan_from r (last_of prev (c :: m)) 0 rest.
Proof.
  intros H. cbn [app Re.scan_from] in *. rewrite H.
  replace (List.length (c :: m ++ rest) - List.length rest)%nat
    with (S (List.length m))
    by (cbn [List.length]; rewrite length_app; lia).
  rewrite (scan_skip r m rest (Some c) eq_refl). reflexivity.
Qed.

(** When the match does not look at the code point before it, neither
    does the scan. *)
Lemma scan_prev (r : Re.regex) :
  (forall p p' s, Re.match_at r p s = Re.match_at r p' s) ->
  forall s p p' n, Re.scan_from r p n s = Re.scan_from r p' n s.
Proof.
  intros H. induction s as [|c s IH]; intros p p' n.
  - cbn [Re.scan_from]. rewrite (H p p'). reflexivity.
  - cbn [Re.scan_from]. destruct n; [|reflexivity].
    rewrite (H p p'). reflexivity.
Qed.

(** A scan in which no match succeeds leaves the text as it is. *)
Lemma scan_never (r : Re.regex) (s : str) :
  never r s -> forall p, Re.scan_from r p 0 s = map Re.Text s.
Proof.
  induction s as [|c s IH]; intros [H1 H2] p.
  - cbn [Re.scan_from]. rewrite H1. reflexivity.
  - rewrite scan_text by apply H1. cbn [map]. rewrite (IH H2). reflexivity.
Qed.

Lemma sub_render (r : Re.regex) (t : Re.template) (s : str) :
  Re.sub r t s = flat_map (render t) (Re.scan r s).
Proof. reflexivity. Qed.

Lemma render_text (t : Re.template) (s : str) :
  flat_map (render t) (map Re.Text s) = s.
Proof. induction s as [|c s IH]; simpl; [|rewrite IH]; reflexivity. Qed.

Lemma sub_never (r : Re.regex) (t : Re.template) (s : str) :
  never r s -> Re.sub r t s = s.
Proof.
  intros H. rewrite sub_render. unfold Re.scan.
  rewrite (scan_never _ _ H). apply render_text.
Qed.

(** *** Occurrences of a sequence of classes *)

Lemma occurs_cons (cs : list (N -> bool)) (c : N) (s : str) :
  occurs cs (c :: s) = false ->
  fits_prefix cs (c :: s) = false /\ occurs cs s = false.
Proof. cbn [occurs]. intros H. apply orb_false_iff in H. exact H. Qed.

Lemma occurs_fits (cs : list (N -> bool)) (s : str) :
  occurs cs s = false -> fits_prefix cs s = false.
Proof.
  destruct s; cbn [occurs]; intros H; apply orb_false_iff in H; tauto.
Qed.

Lemma occurs_skipn (cs : list (N -> bool)) (n : nat) (s : str) :
  occurs cs s = false -> occurs cs (skipn n s) = false.
Proof.
  revert s. induction n as [|n IH]; intros s H; [exact H|].
  destruct s as [|c s]; [exact H|]. cbn [skipn].
  apply IH. apply (occurs_cons _ _ _ H).
Qed.

Lemma in_skipn (A : Type) (x : A) (n : nat) (l : list A) :
  In x (skipn n l) -> In x l.
Proof.
  intros H. rewrite <- (firstn_skipn n l). apply in_or_app. right. exact H.
Qed.

Lemma fits_prefix_straddle (cs : list (N -> bool)) (b : str) (x : N)
    (rest : str) :
  fits_prefix cs (b ++ x :: rest) = true ->
  fits_prefix cs b = true
  \/ exists g, In g (skipn (List.length b) cs) /\ g x = true.
Proof.
  revert cs. induction b as [|y b IH]; intros [|f cs]; cbn [app fits_prefix];
    auto.
  - intros H. apply andb_true_iff in H. destruct H as [H _].
    right. exists f. split; [left; reflexivity | exact H].
  - intros H. apply andb_true_iff in H. destruct H as [H1 H2].
    destruct (IH _ H2) as [H | [g [Hg Hx]]].
    + left. rewrite H1, H. reflexivity.
    + right. exists g. split; [exact Hg | exact Hx].
Qed.

Lemma no_straddle (cs : list (N -> bool)) (pre : str) (x : N) (rest : str) :
  head_apart cs -> head_accepts cs x -> occurs cs pre = false ->
  unfit cs pre (x :: rest).
Proof.
  intros Ha Hx. induction pre as [|y pre IH]; intros Ho; [exact I|].
  apply occurs_cons in Ho. destruct Ho as [Hf Ho].
  split; [|exact (IH Ho)].
  apply not_true_is_false. intros E.
  apply fits_prefix_straddle in E. destruct E as [E | [g [Hg Hgx]]].
  - congruence.
  - destruct cs as [|f tl]; [destruct Hx|].
    cbn [List.length skipn] in Hg. apply in_skipn in Hg.
    rewrite (Ha x g Hx Hg) in Hgx. discriminate.
Qed.

Lemma scan_unfit (r : Re.regex) (cs : list (N -> bool)) :
  (forall p s, fits_prefix cs s = false -> Re.match_at r p s = None) ->
  forall pre rest p,
    unfit cs pre rest ->
    Re.scan_from r p 0 (pre ++ rest)
    = map Re.Text pre ++ Re.scan_from r (last_of p pre) 0 rest.
Proof.
  intros H. induction pre as [|c pre IH]; intros rest p Hu; [reflexivity|].
  destruct Hu as [H1 H2]. cbn [app] in *.
  rewrite scan_text by (apply H, H1).
  cbn [map app]. rewrite (IH _ _ H2). reflexivity.
Qed.

(** *** The lazy repetition of a class that accepts everything *)

Section Lazy.

Variable cls : N -> bool.
Hypothesis cls_all : forall c, cls c = true.

Lemma star_lazy_unfold (k : option N -> str -> option Re.outcome)
    (prev : option N) (s : str) :
  Re.star_lazy cls k prev s
  = match k prev s with
    | Some o => Some o
    | None =>
        match s with
        | c :: rest => if cls c then Re.star_lazy cls k (Some c) rest else None
        | [] => None
        end
    end.
Proof. destruct s; reflexivity. Qed.

Lemma star_lazy_same (k k' : option N -> str -> option Re.outcome) :
  (forall p p' s, k p s = k' p' s) ->
  forall s p p', Re.star_lazy cls k p s = Re.star_lazy cls k' p' s.
Proof.
  intros H. induction s as [|c s IH]; intros p p';
    rewrite (star_lazy_unfold k), (star_lazy_unfold k'), (H p p').
  - reflexivity.
  - rewrite cls_all, (IH (Some c) (Some c)). reflexivity.
Qed.

Lemma star_lazy_skip (k : option N -> str -> option Re.outcome)
    (body rest : str) (prev : option N) :
  misses k body rest ->
  Re.star_lazy cls k prev (body ++ rest)
  = Re.star_lazy cls k (last_of prev body) rest.
Proof.
  revert prev. induction body as [|c body IH]; intros prev H; [reflexivity|].
  destruct H as [H1 H2]. rewrite star_lazy_unfold, H1. cbn [app].
  rewrite cls_all. apply (IH _ H2).
Qed.

Lemma star_lazy_hit (k : option N -> str -> option Re.outcome)
    (prev : option N) (s : str) (o : Re.outcome) :
  k prev s = Some o -> Re.star_lazy cls k prev s = Some o.
Proof. intros H. rewrite star_lazy_unfold, H. reflexivity. Qed.

Lemma star_lazy_none (k : option N -> str -> option Re.outcome)
    (prev : option N) (s : str) :
  misses k s [] -> (forall p, k p [] = None) ->
  Re.star_lazy cls k prev s = None.
Proof.
  intros H H0. rewrite <- (app_nil_r s), (star_lazy_skip _ _ _ _ H).
  rewrite star_lazy_unfold, H0. reflexivity.
Qed.

End Lazy.

(** *** A rule for delimited text: an opening, anything (lazily), a closing

    The shape of [re_think], [latex_inline], [latex_block] and
    [re_dollars]; [grouped] says whether the inside is group 1. *)

Section Delimited.

Variables (O C : list (N -> bool)) (cls : N -> bool) (grouped : bool).
Hypothesis cls_all : forall c, cls c = true.

Local Abbreviation rule := (delimited O C cls grouped).

Lemma match_delimited (prev : option N) (s : str) :
  Re.match_at rule prev s
  = if fits_prefix O s
    then Re.star_lazy cls (closing C grouped (skipn (List.length O) s))
           (last_of prev (firstn (List.length O) s))
           (skipn (List.length O) s)
    else None.
Proof.
  unfold Re.match_at, delimited. cbn [Re.exec]. rewrite exec_chars.
  destruct (fits_prefix O s); [|reflexivity].
  unfold inner, closing, capture. destruct grouped; cbn [Re.exec];
    (apply star_lazy_same; [exact cls_all|]); intros p p' s';
    rewrite exec_chars; reflexivity.
Qed.

Lemma delimited_needs_opening (p : option N) (s : str) :
  fits_prefix O s = false -> Re.match_at rule p s = None.
Proof. intros H. rewrite match_delimited, H. reflexivity. Qed.

Lemma delimited_prev (p p' : option N) (s : str) :
  Re.match_at rule p s = Re.match_at rule p' s.
Proof.
  rewrite !match_delimited. destruct (fits_prefix O s); [|reflexivity].
  apply star_lazy_same; [exact cls_all | reflexivity].
Qed.

Lemma misses_unfit (s1 body rest : str) :
  unfit C body rest -> misses (closing C grouped s1) body rest.
Proof.
  induction body as [|c body IH]; intros H; [exact I|].
  destruct H as [H1 H2]. split; [|exact (IH H2)].
  intros p. unfold closing. rewrite H1. reflexivity.
Qed.

Lemma unfit_occurs (s : str) : occurs C s = false -> unfit C s [].
Proof.
  induction s as [|c s IH]; intros H; [exact I|].
  apply occurs_cons in H. destruct H as [H1 H2].
  split; [rewrite app_nil_r; exact H1 | exact (IH H2)].
Qed.

Lemma delimited_needs_closing (p : option N) (s : str) :
  occurs C (skipn (List.length O) s) = false ->
  Re.match_at rule p s = None.
Proof.
  intros H. rewrite match_delimited.
  destruct (fits_prefix O s); [|reflexivity].
  apply star_lazy_none; [exact cls_all | |].
  - apply misses_unfit, unfit_occurs, H.
  - intros q. unfold closing.
    assert (E : fits_prefix C [] = false).
    { pose proof (occurs_skipn C (List.length (skipn (List.length O) s)) _ H)
        as H'.
      rewrite skipn_all in H'. apply occurs_fits, H'. }
    rewrite E. reflexivity.
Qed.

Lemma delimited_match (p : option N) (o body c post : str) :
  fits O o = true -> fits C c = true -> unfit C body (c ++ post) ->
  Re.match_at rule p (o ++ body ++ c ++ post)
  = Some (capture grouped body, post).
Proof.
  intros Ho Hc Hu. rewrite match_delimited.
  rewrite (fits_prefix_app O o _ Ho).
  rewrite <- (fits_length O o Ho), skipn_app, skipn_all, Nat.sub_diag.
  cbn [skipn app].
  rewrite (@star_lazy_skip cls cls_all _ body (c ++ post) _
             (@misses_unfit _ body (c ++ post) Hu)).
  apply star_lazy_hit. unfold closing.
  rewrite (fits_prefix_app C c _ Hc).
  rewrite <- (fits_length C c Hc), skipn_app, skipn_all, Nat.sub_diag.
  cbn [skipn app].
  replace (List.length (body ++ c ++ post) - List.length (c ++ post))%nat
    with (List.length body + 0)%nat by (rewrite !length_app; lia).
  rewrite firstn_app_2. cbn [firstn]. rewrite app_nil_r. reflexivity.
Qed.

Lemma never_unclosed (s : str) : occurs C s = false -> never rule s.
Proof.
  induction s as [|c s IH]; intros H.
  - split; [|exact I]. intros p. apply delimited_needs_closing.
    apply occurs_skipn, H.
  - split.
    + intros p. apply delimited_needs_closing. apply occurs_skipn, H.
    + apply IH. apply (occurs_cons _ _ _ H).
Qed.

(** Without a closing delimiter the rule changes nothing. *)
Lemma sub_unclosed (t : Re.template) (s : str) :
  occurs C s = false -> Re.sub rule t s = s.
Proof. intros H. apply sub_never, never_unclosed, H. Qed.

Lemma fits_head (cs : list (N -> bool)) (o : str) :
  cs <> [] -> fits cs o = true ->
  exists x o', o = x :: o' /\ head_accepts cs x.
Proof.
  destruct cs as [|f cs]; [contradiction|]. intros _.
  destruct o as [|x o']; [discriminate|]. cbn [fits]. intros H.
  apply andb_true_iff in H. exists x, o'. split; [reflexivity | apply H].
Qed.

Lemma occurs_nonempty (cs : list (N -> bool)) (s : str) :
  occurs cs s = false -> cs <> [].
Proof. intros H ->. destruct s; discriminate. Qed.

(** A delimited part is replaced; the text before it, which holds no
    opening delimiter, stays; the scan goes on behind the closing
    delimiter. *)
Lemma sub_pair (t : Re.template) (pre o body c post : str) :
  head_apart O -> head_apart C ->
  fits O o = true -> fits C c = true ->
  occurs O pre = false -> occurs C body = false ->
  Re.sub rule t (pre ++ o ++ body ++ c ++ post)
  = pre ++ Re.expand t (capture grouped body) ++ Re.sub rule t post.
Proof.
  intros HaO HaC Ho Hc Hpre Hbody.
  destruct (@fits_head O o (@occurs_nonempty O pre Hpre) Ho)
    as [x [o' [-> Hx]]].
  destruct (@fits_head C c (@occurs_nonempty C body Hbody) Hc)
    as [y [c' [-> Hy]]].
  rewrite !sub_render. unfold Re.scan.
  rewrite (@scan_unfit rule O delimited_needs_opening pre
             ((x :: o') ++ body ++ (y :: c') ++ post) None
             (@no_straddle O pre x _ HaO Hx Hpre)).
  assert (Hm : Re.match_at rule (last_of None pre)
                 ((x :: o' ++ body ++ y :: c') ++ post)
               = Some (capture grouped body, post)).
  { replace ((x :: o' ++ body ++ y :: c') ++ post)
      with ((x :: o') ++ body ++ (y :: c') ++ post)
      by (cbn [app]; rewrite <- !app_assoc; reflexivity).
    apply delimited_match; [exact Ho | exact Hc |].
    apply (@no_straddle C body y _ HaC Hy Hbody). }
  replace ((x :: o') ++ body ++ (y :: c') ++ post)
    with ((x :: o' ++ body ++ y :: c') ++ post)
    by (cbn [app]; rewrite <- !app_assoc; reflexivity).
  rewrite (scan_hit _ _ _ _ Hm).
  rewrite (@scan_prev rule delimited_prev post _ None 0%nat).
  rewrite flat_map_app, render_text. reflexivity.
Qed.

End Delimited.

(** *** The four delimited rules of the sanitizer *)


Lemma re_think_shape :
  re_think = delimited think_open think_close Re.any false.
Proof. reflexivity. Qed.

Lemma latex_inline_shape :
  latex_inline
  = delimited (map Re.exactly [92; 40]) (map Re.exactly [92; 41]) Re.any true.
Proof. reflexivity. Qed.

Lemma latex_block_shape :
  latex_block
  = delimited (map Re.exactly [92; 91]) (map Re.exactly [92; 93])
      Re.space_or_not true.
Proof. reflexivity. Qed.

Lemma re_dollars_shape :
  re_dollars
  = delimited (map Re.exactly (py "$$")) (map Re.exactly (py "$$"))
      Re.space_or_not true.
Proof. reflexivity. Qed.

Lemma any_all (c : N) : Re.any c = true.
Proof. reflexivity. Qed.

Lemma space_or_not_all (c : N) : Re.space_or_not c = true.
Proof. apply orb_negb_r. Qed.

(** Occurrences of a literal are those of [sub in s]. *)
Lemma fits_prefix_exactly (t s : str) :
  fits_prefix (map Re.exactly t) s = startswith t s.
Proof.
  revert s. induction t as [|a t IH]; intros [|c s]; try reflexivity.
  cbn [map fits_prefix startswith]. unfold Re.exactly at 1.
  rewrite IH, (N.eqb_sym c a). reflexivity.
Qed.

Lemma occurs_exactly (t s : str) : occurs (map Re.exactly t) s = contains t s.
Proof.
  induction s as [|c s IH]; cbn [occurs contains];
    rewrite fits_prefix_exactly; [reflexivity|].
  rewrite IH. reflexivity.
Qed.

Lemma fits_exactly (t : str) : fits (map Re.exactly t) t = true.
Proof.
  induction t as [|a t IH]; [reflexivity|].
  cbn [map fits]. unfold Re.exactly at 1. rewrite N.eqb_refl. exact IH.
Qed.

(** Only [<] matches [<] when case is ignored. *)
Lemma ignorecase_lt (x : N) : Re.ignorecase 60 x = true -> x = 60.
Proof.
  unfold Re.ignorecase. change (lower_cp 60) with 60.
  change (N.eqb 60 105) with false. change (N.eqb 60 107) with false.
  change (N.eqb 60 115) with false. cbn [andb orb].
  rewrite !orb_false_r. intros H. apply N.eqb_eq in H.
  unfold lower_cp in H. destruct (isupper x) eqn:E; [|exact H].
  apply isupper_true in E. lia.
Qed.

Lemma think_open_apart : head_apart think_open.
Proof.
  intros x g Hx Hg. apply ignorecase_lt in Hx. subst x.
  cbn in Hg. repeat (destruct Hg as [<- | Hg]; [reflexivity|]).
  destruct Hg.
Qed.

Lemma think_close_apart : head_apart think_close.
Proof.
  intros x g Hx Hg. apply ignorecase_lt in Hx. subst x.
  cbn in Hg. repeat (destruct Hg as [<- | Hg]; [reflexivity|]).
  destruct Hg.
Qed.

Lemma backslash_apart (c : N) :
  c <> 92 -> head_apart (map Re.exactly [92; c]).
Proof.
  intros Hc x g Hx Hg. apply N.eqb_eq in Hx. subst x.
  destruct Hg as [<- | []]. apply N.eqb_neq. auto.
Qed.

(** *** The rule for exponents *)

Lemma star_greedy_unfold (cls : N -> bool)
    (k : option N -> str -> option Re.outcome) (prev : option N) (s : str) :
  Re.star_greedy cls k prev s
  = match s with
    | c :: rest =>
        if cls c then
          match Re.star_greedy cls k (Some c) rest with
          | Some o => Some o
          | None => k prev s
          end
        else k prev s
    | [] => k prev s
    end.
Proof. destruct s; reflexivity. Qed.

(** A greedy repetition before a continuation that cannot fail takes the
    whole run. *)
Lemma star_greedy_run (cls : N -> bool)
    (k : option N -> str -> option Re.outcome) (run rest : str)
    (prev : option N) :
  (forall p s, k p s <> None) ->
  forallb cls run = true -> first_ok cls rest = true ->
  Re.star_greedy cls k prev (run ++ rest) = k (last_of prev run) rest.
Proof.
  intros Hk. revert prev. induction run as [|d run IH]; intros prev Hr Hrest.
  - cbn [app last_of fold_left]. rewrite star_greedy_unfold.
    destruct rest as [|x rest]; [reflexivity|].
    cbn [first_ok] in Hrest. apply negb_true_iff in Hrest.
    rewrite Hrest. reflexivity.
  - cbn [forallb] in Hr. apply andb_true_iff in Hr. destruct Hr as [Hd Hr].
    cbn [app]. rewrite star_greedy_unfold, Hd, (IH (Some d) Hr Hrest).
    change (last_of prev (d :: run)) with (last_of (Some d) run).
    destruct (k (last_of (Some d) run) rest) eqn:E; [reflexivity|].
    exfalso. exact (Hk _ _ E).
Qed.

(** Whatever a greedy repetition gives, its continuation gave. *)
Lemma star_greedy_from (cls : N -> bool)
    (k : option N -> str -> option Re.outcome) (s : str) (prev : option N)
    (o : Re.outcome) :
  Re.star_greedy cls k prev s = Some o -> exists p t, k p t = Some o.
Proof.
  revert prev. induction s as [|c s IH]; intros prev;
    rewrite star_greedy_unfold.
  - intros H. exists prev, []. exact H.
  - destruct (cls c); [|intros H; exists prev, (c :: s); exact H].
    destruct (Re.star_greedy cls k (Some c) s) eqn:E.
    + intros H. injection H as <-. exact (IH _ E).
    + intros H. exists prev, (c :: s). exact H.
Qed.

Lemma match_exponent (p : option N) (s : str) :
  Re.match_at re_exponent p s
  = match s with
    | c :: d :: rest =>
        if (Re.exactly 94 c && Re.digit d)%bool
        then Re.star_greedy Re.digit (exponent_done (d :: rest))
               (Some d) rest
        else None
    | _ => None
    end.
Proof.
  destruct s as [|c [|d rest]]; unfold Re.match_at, re_exponent;
    cbn [py map list_ascii_of_string Re.lit Re.plus Re.exec].
  - reflexivity.
  - destruct (Re.exactly _ c); reflexivity.
  - change (N_of_ascii "^") with 94.
    destruct (Re.exactly 94 c); [|reflexivity]. cbn [andb].
    destruct (Re.digit d); reflexivity.
Qed.

Lemma exponent_needs_start (p : option N) (s : str) :
  fits_prefix exponent_start s = false -> Re.match_at re_exponent p s = None.
Proof.
  rewrite match_exponent. destruct s as [|c [|d rest]]; try reflexivity.
  cbn [exponent_start fits_prefix]. rewrite andb_true_r.
  intros ->. reflexivity.
Qed.

Lemma exponent_prev (p p' : option N) (s : str) :
  Re.match_at re_exponent p s = Re.match_at re_exponent p' s.
Proof. rewrite !match_exponent. reflexivity. Qed.

(** The group of a match of [re_exponent] always takes part. *)
Lemma exponent_group (p : option N) (s : str) (g : option str) (s' : str) :
  Re.match_at re_exponent p s = Some (g, s') -> g <> None.
Proof.
  rewrite match_exponent. destruct s as [|c [|d rest]]; try discriminate.
  destruct (Re.exactly 94 c && Re.digit d)%bool; [|discriminate].
  intros H. apply star_greedy_from in H. destruct H as [q [t H]].
  unfold exponent_done, Re.accept in H. injection H as <- _. discriminate.
Qed.

Lemma exponent_match (p : option N) (d : N) (ds post : str) :
  Re.digit d = true -> forallb Re.digit ds = true ->
  first_ok Re.digit post = true ->
  Re.match_at re_exponent p ((94 :: d :: ds) ++ post)
  = Some (Some (d :: ds), post).
Proof.
  intros Hd Hds Hpost. rewrite match_exponent. cbn [app].
  change (Re.exactly 94 94) with true. rewrite Hd. cbn [andb].
  rewrite star_greedy_run; [|discriminate | exact Hds | exact Hpost].
  unfold exponent_done, Re.accept.
  replace (List.length (d :: ds ++ post) - List.length post)%nat
    with (List.length (d :: ds) + 0)%nat
    by (cbn [List.length]; rewrite length_app; lia).
  change (d :: ds ++ post) with ((d :: ds) ++ post).
  rewrite firstn_app_2. cbn [firstn]. rewrite app_nil_r. reflexivity.
Qed.

Lemma exponent_start_apart : head_apart exponent_start.
Proof.
  intros x g Hx Hg. apply N.eqb_eq in Hx. subst x.
  destruct Hg as [<- | []]. reflexivity.
Qed.

(** *** [re.sub] with a function, piece by piece *)

Lemma sub_pieces_text (f : option str -> option str) (pre : str)
    (ps : list Re.piece) :
  Re.sub_pieces f (map Re.Text pre ++ ps)
  = option_map (app pre) (Re.sub_pieces f ps).
Proof.
  induction pre as [|c pre IH]; cbn [map app Re.sub_pieces].
  - destruct (Re.sub_pieces f ps); reflexivity.
  - rewrite IH. destruct (Re.sub_pieces f ps); reflexivity.
Qed.

Lemma sub_pieces_total (f : option str -> option str) (ps : list Re.piece) :
  Forall (fun p => match p with
                   | Re.Match g => f g <> None
                   | Re.Text _ => True
                   end) ps ->
  exists r, Re.sub_pieces f ps = Some r.
Proof.
  induction 1 as [|p ps Hp _ [r IH]]; [exists []; reflexivity|].
  destruct p as [c | g]; cbn [Re.sub_pieces]; rewrite IH.
  - eexists. reflexivity.
  - destruct (f g); [eexists; reflexivity | contradiction].
Qed.

(** Every match that the scanner records is one of [match_at]. *)
Lemma scan_matches (r : Re.regex) (Q : option str -> Prop) :
  (forall p s g s', Re.match_at r p s = Some (g, s') -> Q g) ->
  forall s p n,
    Forall (fun x => match x with
                     | Re.Match g => Q g
                     | Re.Text _ => True
                     end) (Re.scan_from r p n s).
Proof.
  intros H. induction s as [|c s IH]; intros p n; cbn [Re.scan_from].
  - destruct n; [|constructor].
    destruct (Re.match_at r p []) as [[g s']|] eqn:E; [|constructor].
    constructor; [exact (H _ _ _ _ E) | constructor].
  - destruct n; [|apply IH].
    destruct (Re.match_at r p (c :: s)) as [[g s']|] eqn:E.
    + destruct (List.length (c :: s) - List.length s')%nat.
      * constructor; [exact (H _ _ _ _ E)|]. constructor; [exact I|].
        apply IH.
      * constructor; [exact (H _ _ _ _ E) | apply IH].
    + constructor; [exact I | apply IH].
Qed.

Lemma translate_each (table : list (N * N)) (s : str) :
  flat_map (fun ch => translate table [ch]) s = translate table s.
Proof.
  induction s as [|c s IH]; [reflexivity|].
  cbn [flat_map]. rewrite IH. reflexivity.
Qed.

(** The rule for exponents never raises. *)
Lemma exponents_total (s : str) :
  exists r, Re.sub_fn re_exponent to_superscript s = Some r.
Proof.
  unfold Re.sub_fn, Re.scan. apply sub_pieces_total.
  apply (@scan_matches re_exponent (fun g => to_superscript g <> None)).
  intros p t g s' H. apply exponent_group in H.
  destruct g; [discriminate | contradiction].
Qed.

Lemma skipn_tail (n : nat) (c : N) (t : str) :
  skipn n t = skipn 1 (skipn n (c :: t)).
Proof.
  revert c t. induction n as [|n IH]; intros c t; [reflexivity|].
  destruct t as [|d t]; [destruct n; reflexivity|].
  cbn [skipn]. apply (IH d t).
Qed.

(** No match of a delimited rule starts where no closing delimiter
    follows. *)
Lemma never_closing_gone (O C : list (N -> bool)) (cls : N -> bool)
    (grouped : bool) :
  (forall c, cls c = true) ->
  forall t, occurs C (skipn (List.length O) t) = false ->
            never (delimited O C cls grouped) t.
Proof.
  intros Hall. induction t as [|c t IH]; intros H.
  - split; [|exact I]. intros p.
    apply delimited_needs_closing; assumption.
  - split; [intros p; apply delimited_needs_closing; assumption|].
    apply IH. rewrite (skipn_tail (List.length O) c t).
    apply occurs_skipn, H.
Qed.

(** A lone [$$]: no dollar sign before it and no [$$] behind it. *)
Lemma lone_dollars (pre post : str) :
  existsb (N.eqb 36) pre = false -> contains (py "$$") post = false ->
  Re.sub re_dollars group1 (pre ++ py "$$" ++ post) = pre ++ py "$$" ++ post.
Proof.
  intros Hpre Hpost. apply sub_never. rewrite re_dollars_shape.
  induction pre as [|y pre IH].
  - apply never_closing_gone; [exact space_or_not_all|].
    change (occurs (map Re.exactly (py "$$")) post = false).
    rewrite occurs_exactly. exact Hpost.
  - cbn [existsb] in Hpre. apply orb_false_iff in Hpre.
    destruct Hpre as [Hy Hpre]. split; [|exact (IH Hpre)].
    intros p. apply delimited_needs_opening; [exact space_or_not_all|].
    cbn [app]. change (py "$$") with [36; 36]. cbn [map fits_prefix].
    unfold Re.exactly at 1. rewrite N.eqb_sym, Hy. reflexivity.
Qed.

(** *** Every match of a pattern of [Quiz.py] consumes text *)

Lemma star_greedy_suffix (cls : N -> bool)
    (k : option N -> str -> option Re.outcome) (s : str) (prev : option N)
    (o : Re.outcome) :
  Re.star_greedy cls k prev s = Some o ->
  exists p t, k p t = Some o /\ (List.length t <= List.length s)%nat.
Proof.
  revert prev. induction s as [|c s IH]; intros prev;
    rewrite star_greedy_unfold.
  - intros H. exists prev, []. split; [exact H | lia].
  - destruct (cls c);
      [|intros H; exists prev, (c :: s); split; [exact H | lia]].
    destruct (Re.star_greedy cls k (Some c) s) eqn:E.
    + intros H. injection H as <-. destruct (IH _ E) as [p [t [H1 H2]]].
      exists p, t. split; [exact H1 | cbn [List.length]; lia].
    + intros H. exists prev, (c :: s). split; [exact H | lia].
Qed.

Lemma star_lazy_suffix (cls : N -> bool)
    (k : option N -> str -> option Re.outcome) (s : str) (prev : option N)
    (o : Re.outcome) :
  Re.star_lazy cls k prev s = Some o ->
  exists p t, k p t = Some o /\ (List.length t <= List.length s)%nat.
Proof.
  revert prev. induction s as [|c s IH]; intros prev;
    rewrite star_lazy_unfold; destruct (k prev _) eqn:E.
  - intros H. injection H as <-. exists prev, []. split; [exact E | lia].
  - discriminate.
  - intros H. injection H as <-. exists prev, (c :: s).
    split; [exact E | lia].
  - destruct (cls c); [|discriminate]. intros H.
    destruct (IH _ H) as [p [t [H1 H2]]].
    exists p, t. split; [exact H1 | cbn [List.length]; lia].
Qed.

Lemma exec_consumes (r : Re.regex) :
  forall (k : Re.cont) g prev s o,
    Re.exec r k g prev s = Some o ->
    exists g' p t,
      k g' p t = Some o
      /\ (List.length t + min_length r <= List.length s)%nat.
Proof.
  induction r as [| cls | | r1 IH1 r2 IH2 | r1 IH1 r2 IH2 | greedy cls
                 | r1 IH1]; intros k g prev s o; cbn [Re.exec min_length].
  - intros H. exists g, prev, s. split; [exact H | lia].
  - destruct s as [|c s]; [discriminate|].
    destruct (cls c); [|discriminate]. intros H.
    exists g, (Some c), s. split; [exact H | cbn [List.length]; lia].
  - destruct (Re.at_line_start prev); [|discriminate]. intros H.
    exists g, prev, s. split; [exact H | lia].
  - intros H. destruct (IH1 _ _ _ _ _ H) as [g1 [p1 [t1 [H1 L1]]]].
    destruct (IH2 _ _ _ _ _ H1) as [g2 [p2 [t2 [H2 L2]]]].
    exists g2, p2, t2. split; [exact H2 | lia].
  - destruct (Re.exec r1 k g prev s) eqn:E.
    + intros H. injection H as <-.
      destruct (IH1 _ _ _ _ _ E) as [g1 [p1 [t1 [H1 L1]]]].
      exists g1, p1, t1. split; [exact H1 | lia].
    + intros H. destruct (IH2 _ _ _ _ _ H) as [g2 [p2 [t2 [H2 L2]]]].
      exists g2, p2, t2. split; [exact H2 | lia].
  - destruct greedy; intros H.
    + destruct (star_greedy_suffix _ _ _ _ H) as [p [t [H1 L1]]].
      exists g, p, t. split; [exact H1 | lia].
    + destruct (star_lazy_suffix _ _ _ _ H) as [p [t [H1 L1]]].
      exists g, p, t. split; [exact H1 | lia].
  - intros H. destruct (IH1 _ _ _ _ _ H) as [g1 [p1 [t1 [H1 L1]]]].
    eexists _, p1, t1. split; [exact H1 | exact L1].
Qed.

(** No pattern of the sanitizer matches the empty string: a match always
    ends behind the position where it starts. *)
Lemma patterns_consume :
  Forall (fun r =>
            forall prev s g s',
              Re.match_at r prev s = Some (g, s') ->
              (List.length s' < List.length s)%nat) patterns.
Proof.
  assert (H : forall r, (1 <= min_length r)%nat ->
                forall prev s g s',
                  Re.match_at r prev s = Some (g, s') ->
                  (List.length s' < List.length s)%nat).
  { intros r Hr prev s g s' Hm. unfold Re.match_at in Hm.
    destruct (exec_consumes _ _ _ _ _ Hm) as [g' [p [t [Ha L]]]].
    unfold Re.accept in Ha. injection Ha as _ ->. lia. }
  unfold patterns. repeat constructor; apply H; cbn; lia.
Qed.

(** ** The claims on the sanitizer *)

(** C5. A part of the text between [<think>] and [</think>], the tags in
    any case and the part over any number of lines, is removed and the
    text around it stays: the rule for it removes the part from the first
    opening tag to the first closing tag behind it, keeps the text before
    it, and goes on behind it; a part at the start of the reply leaves no
    trace in the result of the sanitizer.  In particular
    [<think>secret</think>visible] gives [visible]. *)
Theorem think_blocks_removed :
  (forall pre o body c post : str,
     tag_ci (py "<think>") o = true -> tag_ci (py "</think>") c = true ->
     contains_ci (py "<think>") pre = false ->
     contains_ci (py "</think>") body = false ->
     Re.sub re_think nothing (pre ++ o ++ body ++ c ++ post)
     = pre ++ Re.sub re_think nothing post)
  /\ (forall o body c post : str,
        tag_ci (py "<think>") o = true -> tag_ci (py "</think>") c = true ->
        contains_ci (py "</think>") body = false ->
        _strip_hidden_thoughts (o ++ body ++ c ++ post)
        = _strip_hidden_thoughts post)
  /\ _strip_hidden_thoughts (py "<think>secret</think>visible")
     = Some (py "visible")
  /\ _strip_hidden_thoughts
       (py "<THINK>one" ++ [10] ++ py "two</Think>visible")
     = Some (py "visible").
Proof.
  assert (H : forall pre o body c post : str,
             tag_ci (py "<think>") o = true ->
             tag_ci (py "</think>") c = true ->
             contains_ci (py "<think>") pre = false ->
             contains_ci (py "</think>") body = false ->
             Re.sub re_think nothing (pre ++ o ++ body ++ c ++ post)
             = pre ++ Re.sub re_think nothing post).
  { intros pre o body c post Ho Hc Hpre Hbody. rewrite re_think_shape.
    rewrite (@sub_pair think_open think_close Re.any false any_all nothing
               pre o body c post think_open_apart think_close_apart
               Ho Hc Hpre Hbody).
    reflexivity. }
  split; [exact H | split; [|split; reflexivity]].
  intros o body c post Ho Hc Hbody. unfold _strip_hidden_thoughts.
  pose proof (H [] o body c post Ho Hc eq_refl Hbody) as E.
  cbn [app] in E. rewrite E. reflexivity.
Qed.

Lemma think_blocks_removed_witness :
  Re.sub re_think nothing
    (py "Hi " ++ py "<Think>" ++ py "x <b> y" ++ py "</THINK>"
     ++ py " there <think>")
  = py "Hi " ++ Re.sub re_think nothing (py " there <think>").
Proof.
  apply (proj1 think_blocks_removed); reflexivity.
Defined.

(** C6. The rule for inline LaTeX keeps what stands between [\(] and [\)]
    and drops the two delimiters; the rule for exponents turns every run of
    digits behind a caret into the superscript digits and drops the caret;
    a text without a caret before a digit is left as it is.  In particular
    [\(x^2\)] gives [x] with superscript two (U+00B2) and [a^12] gives [a]
    with superscripts one and two (U+00B9, U+00B2). *)
Theorem latex_and_exponents :
  (forall pre body post : str,
     contains [92; 40] pre = false -> contains [92; 41] body = false ->
     Re.sub latex_inline group1 (pre ++ [92; 40] ++ body ++ [92; 41] ++ post)
     = pre ++ body ++ Re.sub latex_inline group1 post)
  /\ (forall pre digits post : str,
        has_exponent pre = false ->
        digits <> [] -> forallb Re.digit digits = true ->
        first_ok Re.digit post = true ->
        Re.sub_fn re_exponent to_superscript (pre ++ 94 :: digits ++ post)
        = option_map (fun rest => pre ++ translate super_map digits ++ rest)
            (Re.sub_fn re_exponent to_superscript post))
  /\ (forall s : str,
        has_exponent s = false ->
        Re.sub_fn re_exponent to_superscript s = Some s)
  /\ translate super_map (py "0123456789") = superscripts
  /\ _strip_hidden_thoughts ([92; 40] ++ py "x^2" ++ [92; 41])
     = Some (py "x" ++ [178])
  /\ _strip_hidden_thoughts (py "a^12") = Some (py "a" ++ [185; 178]).
Proof.
  split; [|split; [|split; [|repeat split; reflexivity]]].
  - intros pre body post Hpre Hbody. rewrite latex_inline_shape.
    rewrite (@sub_pair (map Re.exactly [92; 40]) (map Re.exactly [92; 41])
               Re.any true any_all group1 pre [92; 40] body [92; 41] post);
      try reflexivity.
    + cbn [capture Re.expand group1 flat_map]. rewrite app_nil_r.
      reflexivity.
    + apply backslash_apart. discriminate.
    + apply backslash_apart. discriminate.
    + rewrite occurs_exactly. exact Hpre.
    + rewrite occurs_exactly. exact Hbody.
  - intros pre digits post Hpre Hne Hds Hpost.
    destruct digits as [|d ds]; [contradiction|].
    cbn [forallb] in Hds. apply andb_true_iff in Hds.
    destruct Hds as [Hd Hds].
    unfold Re.sub_fn, Re.scan.
    rewrite (@scan_unfit re_exponent exponent_start exponent_needs_start
               pre (94 :: (d :: ds) ++ post) None
               (@no_straddle exponent_start pre 94 _ exponent_start_apart
                  eq_refl Hpre)).
    rewrite sub_pieces_text.
    change (94 :: (d :: ds) ++ post) with ((94 :: d :: ds) ++ post).
    rewrite (scan_hit _ _ _ _ (exponent_match (last_of None pre) d ds post
                                 Hd Hds Hpost)).
    rewrite (@scan_prev re_exponent exponent_prev post _ None 0%nat).
    cbn [Re.sub_pieces to_superscript]. rewrite translate_each.
    destruct (Re.sub_pieces to_superscript
                (Re.scan_from re_exponent None 0 post)); reflexivity.
  - intros s Hs. unfold Re.sub_fn, Re.scan.
    assert (Hn : never re_exponent s).
    { induction s as [|c s IH].
      - split; [|exact I]. intros p. apply exponent_needs_start. reflexivity.
      - apply occurs_cons in Hs. destruct Hs as [H1 H2].
        split; [|exact (IH H2)]. intros p.
        apply exponent_needs_start, H1. }
    rewrite (scan_never _ _ Hn).
    pose proof (sub_pieces_text to_superscript s []) as E.
    rewrite app_nil_r in E. rewrite E. cbn. rewrite app_nil_r. reflexivity.
Qed.

Lemma latex_and_exponents_witness :
  Re.sub_fn re_exponent to_superscript
    (py "x^ + y" ++ 94 :: py "2024" ++ py "z^7")
  = option_map
      (fun rest => py "x^ + y" ++ translate super_map (py "2024") ++ rest)
      (Re.sub_fn re_exponent to_superscript (py "z^7")).
Proof.
  apply (proj1 (proj2 latex_and_exponents)); try reflexivity. discriminate.
Defined.

(** C8. Both functions give a string for every text: the sanitizer never
    raises (its only call that could, [m.group(1)] in the rule for
    exponents, always finds the group), and [_norm] is a total function.
    A delimiter without its partner changes nothing: a text without
    [</think>], without [\)] or without [\]] passes the rule of that
    delimiter as it is, and so does a text with one lone [$$].  The empty
    text, an unclosed [<think>], a lone [\(] or [$$] and unbalanced
    parentheses give the results shown. *)
Theorem never_fails :
  (forall text : str, exists r : str, _strip_hidden_thoughts text = Some r)
  /\ (forall txt : str, exists r : str, _norm txt = r)
  /\ (forall s : str,
        contains_ci (py "</think>") s = false ->
        Re.sub re_think nothing s = s)
  /\ (forall s : str,
        contains [92; 41] s = false -> Re.sub latex_inline group1 s = s)
  /\ (forall s : str,
        contains [92; 93] s = false -> Re.sub latex_block group1 s = s)
  /\ (forall pre post : str,
        existsb (N.eqb 36) pre = false -> contains (py "$$") post = false ->
        Re.sub re_dollars group1 (pre ++ py "$$" ++ post)
        = pre ++ py "$$" ++ post)
  /\ _strip_hidden_thoughts [] = Some []
  /\ _strip_hidden_thoughts (py "<think>no end") = Some (py "<think>no end")
  /\ _strip_hidden_thoughts (py "a " ++ [92; 40] ++ py " b")
     = Some (py "a " ++ [92; 40] ++ py " b")
  /\ _strip_hidden_thoughts (py "cost $$ 5") = Some (py "cost $$ 5")
  /\ _strip_hidden_thoughts (py "f(x, (y)") = Some (py "f(x, y")
  /\ _norm [] = []
  /\ _norm (py "((a+b") = py "a+b"
  /\ _norm (py "a+b)") = py "a+b".
Proof.
  split; [|split; [|split; [|split; [|split; [|split]]]]].
  - intros text. unfold _strip_hidden_thoughts.
    match goal with
    | |- context [Re.sub_fn re_exponent to_superscript ?x] =>
        destruct (exponents_total x) as [r E]; rewrite E
    end.
    eexists. reflexivity.
  - intros txt. exists (_norm txt). reflexivity.
  - intros s H. rewrite re_think_shape.
    apply sub_unclosed; [exact any_all | exact H].
  - intros s H. rewrite latex_inline_shape.
    apply sub_unclosed; [exact any_all|]. rewrite occurs_exactly. exact H.
  - intros s H. rewrite latex_block_shape.
    apply sub_unclosed; [exact space_or_not_all|].
    rewrite occurs_exactly. exact H.
  - exact lone_dollars.
  - repeat split; reflexivity.
Qed.

Lemma never_fails_witness :
  Re.sub re_think nothing (py "so <think>it goes on </thin")
  = py "so <think>it goes on </thin".
Proof.
  apply (proj1 (proj2 (proj2 never_fails))). reflexivity.
Defined.

(** C10. The rule for trivial parentheses runs once over the text: of
    [((a))] it takes the inner pair and leaves [(a)], for every word
    character in the place of [a]; it does not look at its own result.
    So the sanitizer gives [(a)] for [((a))] and [a] for [(a)]: applied
    twice it gives another result than applied once. *)
Theorem trivial_parentheses_one_level :
  _strip_hidden_thoughts (py "((a))") = Some (py "(a)")
  /\ _strip_hidden_thoughts (py "(a)") = Some (py "a")
  /\ (forall c : N,
        Re.word c = true ->
        Re.sub re_trivial_paren group1 (py "((" ++ c :: py "))")
        = py "(" ++ c :: py ")")
  /\ (exists text once twice : str,
        _strip_hidden_thoughts text = Some once
        /\ _strip_hidden_thoughts once = Some twice
        /\ twice <> once).
Proof.
  split; [reflexivity | split; [reflexivity | split]].
  - intros c Hc. unfold Re.sub, Re.scan, re_trivial_paren.
    change (py "((" ++ c :: py "))") with [40; 40; c; 41; 41].
    change (py "(" ++ c :: py ")") with [40; c; 41].
    change (Re.lit (py "(")) with (Re.Seq (Re.Chr (Re.exactly 40)) Re.Eps).
    change (Re.lit (py ")")) with (Re.Seq (Re.Chr (Re.exactly 41)) Re.Eps).
    cbn [Re.scan_from Re.match_at Re.exec].
    change (Re.exactly 40 40) with true. change (Re.word 40) with false.
    cbn iota. rewrite Hc. change (Re.exactly 41 41) with true.
    cbn iota. unfold Re.accept.
    cbn [List.length Nat.sub Re.scan_from Re.match_at Re.exec firstn].
    change (Re.exactly 40 41) with false. cbn iota.
    reflexivity.
  - exists (py "((a))"), (py "(a)"), (py "a").
    split; [reflexivity | split; [reflexivity | discriminate]].
Qed.

Lemma trivial_parentheses_one_level_witness :
  Re.sub re_trivial_paren group1 (py "((" ++ 120 :: py "))")
  = py "(" ++ 120 :: py ")".
Proof.
  apply (proj1 (proj2 (proj2 trivial_parentheses_one_level))). reflexivity.
Defined.

(** *** The rule for lines of reasoning *)













(** *** Runs at the start of a text, for [lstrip_by] *)








(** *** The match of [re_thought] at a position *)






(** *** The scan of [re_thought] over the lines *)










